(** * editorjs-undo: the history capture-and-navigation engine

    A shallow embedding of [src/index.ts] (class [EditorUndoManager]) and the
    properties of its snapshot store, change detector, debounce coalescer,
    navigation controller and shortcut matcher.

    Conventions of the embedding:
    - JavaScript numbers that the code uses as indices and counters
      ([position], array lengths) are integers, modelled as [Z]; the
      [maxHistory] option is whatever number the configuration gives, not
      checked by the code, modelled as a rational [Q];
    - editor content is JSON data (what [editor.save()] hands over and what
      [JSON.parse] builds); a JavaScript object is its list of members in
      enumeration order, which is the order [JSON.stringify] emits;
    - strings are [string]s of 8-bit characters; case mapping and trimming
      act on the ASCII range;
    - the calls to the host that change something or ask for content
      ([onUpdate], [editor.save], [editor.render], [caret.setToBlock],
      [selection.addRange]) are recorded as a list of effects, oldest first;
      what the code only reads from the host (the queries of
      [getCaretPosition]) and the range bookkeeping around [addRange] are
      not recorded. *)

From Stdlib Require Import QArith Qround Lqa.
From Stdlib Require Import ZArith List String Ascii Bool Lia.
From Stdlib Require Import DecimalFacts DecimalPos DecimalN DecimalZ.
Import ListNotations.

Local Open Scope Z_scope.

(* ================================================================= *)
(** ** JSON data, [JSON.stringify] and [JSON.parse] *)

Module JSON.

#[local] Unset Elimination Schemes.

Inductive json : Type :=
| JNull
| JBool (b : bool)
| JNum (n : Z)
| JStr (s : string)
| JArr (items : list json)
| JObj (members : list (string * json)).

#[local] Set Elimination Schemes.

Definition dquote : ascii := "034"%char.
Definition backslash : ascii := "092"%char.

Definition hexDigit (n : N) : ascii :=
  match n with
  | 0 => "0" | 1 => "1" | 2 => "2" | 3 => "3" | 4 => "4" | 5 => "5"
  | 6 => "6" | 7 => "7" | 8 => "8" | 9 => "9" | 10 => "a" | 11 => "b"
  | 12 => "c" | 13 => "d" | 14 => "e" | _ => "f"
  end%N%char.

Definition hexValue (c : ascii) : option N :=
  let n := N_of_ascii c in
  if ((48 <=? n) && (n <=? 57))%N then Some (n - 48)%N
  else if ((97 <=? n) && (n <=? 102))%N then Some (n - 87)%N
  else if ((65 <=? n) && (n <=? 70))%N then Some (n - 55)%N
  else None.

(** [QuoteJSONString], one character: the two-character escapes, [\u00xx]
    for the other control characters, the character itself otherwise.
    [k] is the text that follows. *)
Definition quoteChar (c : ascii) (k : string) : string :=
  let esc (e : ascii) := String backslash (String e k) in
  if (c =? "008")%char then esc "b"%char
  else if (c =? "009")%char then esc "t"%char
  else if (c =? "010")%char then esc "n"%char
  else if (c =? "012")%char then esc "f"%char
  else if (c =? "013")%char then esc "r"%char
  else if (c =? dquote)%char then esc dquote
  else if (c =? backslash)%char then esc backslash
  else if (N_of_ascii c <? 32)%N then
    String backslash (String "u" (String "0" (String "0"
      (String (hexDigit (N_of_ascii c / 16)) (String (hexDigit (N_of_ascii c mod 16)) k)))))
  else String c k.

Fixpoint quoteChars (s : string) (k : string) : string :=
  match s with
  | EmptyString => String dquote k
  | String c s' => quoteChar c (quoteChars s' k)
  end.

Definition quote (s : string) (k : string) : string :=
  String dquote (quoteChars s k).

Fixpoint writeUint (d : Decimal.uint) (k : string) : string :=
  match d with
  | Decimal.Nil => k
  | Decimal.D0 d => String "0" (writeUint d k)
  | Decimal.D1 d => String "1" (writeUint d k)
  | Decimal.D2 d => String "2" (writeUint d k)
  | Decimal.D3 d => String "3" (writeUint d k)
  | Decimal.D4 d => String "4" (writeUint d k)
  | Decimal.D5 d => String "5" (writeUint d k)
  | Decimal.D6 d => String "6" (writeUint d k)
  | Decimal.D7 d => String "7" (writeUint d k)
  | Decimal.D8 d => String "8" (writeUint d k)
  | Decimal.D9 d => String "9" (writeUint d k)
  end.

(** Integer-valued numbers print as their decimal digits (JavaScript does
    so below 10^21). *)
Definition writeNumber (n : Z) (k : string) : string :=
  match Z.to_int n with
  | Decimal.Pos d => writeUint d k
  | Decimal.Neg d => String "-" (writeUint d k)
  end.

(** [write v k] is the compact JSON text of [v] followed by [k]. *)
Fixpoint write (v : json) (k : string) : string :=
  match v with
  | JNull => ("null" ++ k)%string
  | JBool true => ("true" ++ k)%string
  | JBool false => ("false" ++ k)%string
  | JNum n => writeNumber n k
  | JStr s => quote s k
  | JArr items =>
      String "[" (match items with
                  | [] => String "]" k
                  | x :: xs =>
                      write x ((fix tail (l : list json) : string :=
                                  match l with
                                  | [] => String "]" k
                                  | y :: ys => String "," (write y (tail ys))
                                  end) xs)
                  end)
  | JObj members =>
      String "{" (match members with
                  | [] => String "}" k
                  | (key, x) :: ms =>
                      quote key (String ":" (write x
                        ((fix tail (l : list (string * json)) : string :=
                            match l with
                            | [] => String "}" k
                            | (key', y) :: ys =>
                                String "," (quote key' (String ":" (write y (tail ys))))
                            end) ms)))
                  end)
  end.

Fixpoint writeItems (l : list json) (k : string) : string :=
  match l with
  | [] => String "]" k
  | y :: ys => String "," (write y (writeItems ys k))
  end.

Fixpoint writeMembers (l : list (string * json)) (k : string) : string :=
  match l with
  | [] => String "}" k
  | (key, y) :: ys => String "," (quote key (String ":" (write y (writeMembers ys k))))
  end.

Definition stringify (v : json) : string := write v EmptyString.

(** *** Reading the text back *)

Definition isDigit (c : ascii) : bool :=
  ((48 <=? N_of_ascii c) && (N_of_ascii c <=? 57))%N.

Definition digitOf (c : ascii) (d : Decimal.uint) : Decimal.uint :=
  match (N_of_ascii c - 48)%N with
  | 0 => Decimal.D0 d | 1 => Decimal.D1 d | 2 => Decimal.D2 d
  | 3 => Decimal.D3 d | 4 => Decimal.D4 d | 5 => Decimal.D5 d
  | 6 => Decimal.D6 d | 7 => Decimal.D7 d | 8 => Decimal.D8 d
  | _ => Decimal.D9 d
  end%N.

Fixpoint readUint (s : string) : Decimal.uint * string :=
  match s with
  | EmptyString => (Decimal.Nil, EmptyString)
  | String c r =>
      if isDigit c then let (d, k) := readUint r in (digitOf c d, k)
      else (Decimal.Nil, s)
  end.

(** A JSON integer literal: at least one digit, no leading zero. *)
Definition validDigits (d : Decimal.uint) : bool :=
  match d with
  | Decimal.Nil => false
  | Decimal.D0 Decimal.Nil => true
  | Decimal.D0 _ => false
  | _ => true
  end.

Definition readNumber (s : string) : option (json * string) :=
  match s with
  | EmptyString => None
  | String c r =>
      if (c =? "-")%char then
        let (d, k) := readUint r in
        if validDigits d then Some (JNum (Z.of_int (Decimal.Neg d)), k) else None
      else
        let (d, k) := readUint s in
        if validDigits d then Some (JNum (Z.of_int (Decimal.Pos d)), k) else None
  end.

(** The characters of a string literal after its opening quote, up to and
    including the closing quote. *)
Fixpoint readChars (s : string) : option (string * string) :=
  let more (c : ascii) (r : string) :=
    match readChars r with
    | Some (str, k) => Some (String c str, k)
    | None => None
    end in
  match s with
  | EmptyString => None
  | String c r =>
      if (c =? dquote)%char then Some (EmptyString, r)
      else if (c =? backslash)%char then
        match r with
        | EmptyString => None
        | String e r1 =>
            if (e =? "b")%char then more "008"%char r1
            else if (e =? "t")%char then more "009"%char r1
            else if (e =? "n")%char then more "010"%char r1
            else if (e =? "f")%char then more "012"%char r1
            else if (e =? "r")%char then more "013"%char r1
            else if (e =? dquote)%char then more dquote r1
            else if (e =? backslash)%char then more backslash r1
            else if (e =? "/")%char then more "/"%char r1
            else if (e =? "u")%char then
              match r1 with
              | String h3 (String h2 (String h1 (String h0 r2))) =>
                  match hexValue h3, hexValue h2, hexValue h1, hexValue h0 with
                  | Some 0%N, Some 0%N, Some a, Some b =>
                      more (ascii_of_N (16 * a + b)) r2
                  | _, _, _, _ => None
                  end
              | _ => None
              end
            else None
        end
      else if (N_of_ascii c <? 32)%N then None
      else more c r
  end.

(** Strips the literal [lit] from the front of [s]. *)
Fixpoint expect (lit : string) (s : string) : option string :=
  match lit with
  | EmptyString => Some s
  | String a lit' =>
      match s with
      | EmptyString => None
      | String b s' => if (a =? b)%char then expect lit' s' else None
      end
  end.

Fixpoint parseValue (fuel : nat) (s : string) {struct fuel} : option (json * string) :=
  match fuel with
  | O => None
  | S fuel' =>
      match s with
      | EmptyString => None
      | String c r =>
          if (c =? "n")%char then
            match expect "ull" r with Some k => Some (JNull, k) | None => None end
          else if (c =? "t")%char then
            match expect "rue" r with Some k => Some (JBool true, k) | None => None end
          else if (c =? "f")%char then
            match expect "alse" r with Some k => Some (JBool false, k) | None => None end
          else if (c =? dquote)%char then
            match readChars r with Some (str, k) => Some (JStr str, k) | None => None end
          else if (c =? "[")%char then
            match r with
            | EmptyString => None
            | String c' r' =>
                if (c' =? "]")%char then Some (JArr [], r')
                else
                  match parseValue fuel' r with
                  | Some (x, r1) =>
                      match parseItems fuel' r1 with
                      | Some (xs, k) => Some (JArr (x :: xs), k)
                      | None => None
                      end
                  | None => None
                  end
            end
          else if (c =? "{")%char then
            match r with
            | EmptyString => None
            | String c' r' =>
                if (c' =? "}")%char then Some (JObj [], r')
                else
                  match parseMember fuel' r with
                  | Some (m, r1) =>
                      match parseMembers fuel' r1 with
                      | Some (ms, k) => Some (JObj (m :: ms), k)
                      | None => None
                      end
                  | None => None
                  end
            end
          else readNumber s
      end
  end

with parseItems (fuel : nat) (s : string) {struct fuel} : option (list json * string) :=
  match fuel with
  | O => None
  | S fuel' =>
      match s with
      | EmptyString => None
      | String c r =>
          if (c =? "]")%char then Some ([], r)
          else if (c =? ",")%char then
            match parseValue fuel' r with
            | Some (x, r1) =>
                match parseItems fuel' r1 with
                | Some (xs, k) => Some (x :: xs, k)
                | None => None
                end
            | None => None
            end
          else None
      end
  end

with parseMember (fuel : nat) (s : string) {struct fuel} : option ((string * json) * string) :=
  match fuel with
  | O => None
  | S fuel' =>
      match s with
      | EmptyString => None
      | String c r =>
          if (c =? dquote)%char then
            match readChars r with
            | Some (key, String c' r1) =>
                if (c' =? ":")%char then
                  match parseValue fuel' r1 with
                  | Some (x, k) => Some ((key, x), k)
                  | None => None
                  end
                else None
            | _ => None
            end
          else None
      end
  end

with parseMembers (fuel : nat) (s : string) {struct fuel}
  : option (list (string * json) * string) :=
  match fuel with
  | O => None
  | S fuel' =>
      match s with
      | EmptyString => None
      | String c r =>
          if (c =? "}")%char then Some ([], r)
          else if (c =? ",")%char then
            match parseMember fuel' r with
            | Some (m, r1) =>
                match parseMembers fuel' r1 with
                | Some (ms, k) => Some (m :: ms, k)
                | None => None
                end
            | None => None
            end
          else None
      end
  end.

(** The fuel [parseValue] needs to read [write v k] back. *)
Fixpoint size (v : json) : nat :=
  match v with
  | JArr items =>
      match items with
      | [] => 1
      | x :: xs =>
          S (Nat.max (size x)
               ((fix tail (l : list json) : nat :=
                   match l with
                   | [] => 1
                   | y :: ys => S (Nat.max (size y) (tail ys))
                   end) xs))
      end
  | JObj members =>
      match members with
      | [] => 1
      | (_, x) :: ms =>
          S (Nat.max (S (size x))
               ((fix tail (l : list (string * json)) : nat :=
                   match l with
                   | [] => 1
                   | (_, y) :: ys => S (Nat.max (S (size y)) (tail ys))
                   end) ms))
      end
  | _ => 1
  end%nat.

Fixpoint sizeItems (l : list json) : nat :=
  match l with
  | [] => 1
  | y :: ys => S (Nat.max (size y) (sizeItems ys))
  end%nat.

Fixpoint sizeMembers (l : list (string * json)) : nat :=
  match l with
  | [] => 1
  | (_, y) :: ys => S (Nat.max (S (size y)) (sizeMembers ys))
  end%nat.

(** What may follow a number in a JSON text: the end or a character that is
    not a digit. *)
Definition endsNumber (k : string) : Prop :=
  match k with
  | EmptyString => True
  | String c _ => isDigit c = false
  end.

(** A text that starts a value does not start with a closing bracket. *)
Definition startsValue (s : string) : Prop :=
  match s with
  | EmptyString => False
  | String c _ => (c =? "]")%char = false
  end.

(** [JSON.parse]: the whole text must be one value; [None] is the
    [SyntaxError].  The fuel is the length of the text, which bounds the
    number of values and separators in it. *)
Definition parse (s : string) : option json :=
  match parseValue (S (String.length s)) s with
  | Some (v, EmptyString) => Some v
  | _ => None
  end.

End JSON.

(* ================================================================= *)
(** ** JavaScript arrays and strings, as far as the manager uses them *)

Module JS.

Definition len {A : Type} (l : list A) : Z := Z.of_nat (List.length l).

(** [l[i]]: [None] is [undefined]. *)
Definition at_ {A : Type} (l : list A) (i : Z) : option A :=
  if i <? 0 then None else nth_error l (Z.to_nat i).

(** The relative start index of [Array.prototype.splice]. *)
Definition relativeStart (length start : Z) : Z :=
  if start <? 0 then Z.max (length + start) 0 else Z.min start length.

(** The array after [l.splice(start)]: everything from [start] on is removed. *)
Definition splice1 {A : Type} (l : list A) (start : Z) : list A :=
  firstn (Z.to_nat (relativeStart (len l) start)) l.

(** The array after [l.splice(start, deleteCount)]. *)
Definition splice2 {A : Type} (l : list A) (start deleteCount : Z) : list A :=
  let s := relativeStart (len l) start in
  let d := Z.min (Z.max deleteCount 0) (len l - s) in
  firstn (Z.to_nat s) l ++ skipn (Z.to_nat (s + d)) l.

(** [l.pop()] together with the array it leaves. *)
Fixpoint pop {A : Type} (l : list A) : option (list A * A) :=
  match l with
  | [] => None
  | [x] => Some ([], x)
  | x :: xs =>
      match pop xs with
      | Some (init, last) => Some (x :: init, last)
      | None => None
      end
  end.

(** [ToIntegerOrInfinity] on a finite number: the fraction is dropped,
    towards zero. *)
Definition toIntegerOrInfinity (q : Q) : Z :=
  if Qle_bool 0 q then Qfloor q else Qceiling q.

Definition toLowerCaseChar (c : ascii) : ascii :=
  let n := N_of_ascii c in
  if ((65 <=? n) && (n <=? 90))%N then ascii_of_N (n + 32) else c.

Fixpoint toLowerCase (s : string) : string :=
  match s with
  | EmptyString => EmptyString
  | String c r => String (toLowerCaseChar c) (toLowerCase r)
  end.

(** Tab, line feed, vertical tab, form feed, carriage return, space. *)
Definition isWhiteSpace (c : ascii) : bool :=
  let n := N_of_ascii c in
  (((9 <=? n) && (n <=? 13)) || (n =? 32))%N.

Fixpoint trimStart (s : string) : string :=
  match s with
  | EmptyString => EmptyString
  | String c r => if isWhiteSpace c then trimStart r else s
  end.

Fixpoint trimEnd (s : string) : string :=
  match s with
  | EmptyString => EmptyString
  | String c r =>
      match trimEnd r with
      | EmptyString => if isWhiteSpace c then EmptyString else String c EmptyString
      | r' => String c r'
      end
  end.

Definition trim (s : string) : string := trimEnd (trimStart s).

(** [s.split(sep)] for a one-character separator. *)
Fixpoint split (sep : ascii) (s : string) : list string :=
  match s with
  | EmptyString => [EmptyString]
  | String c r =>
      if (c =? sep)%char then EmptyString :: split sep r
      else
        match split sep r with
        | [] => [String c EmptyString]
        | part :: parts => String c part :: parts
        end
  end.

Definition includes (l : list string) (s : string) : bool :=
  existsb (String.eqb s) l.

End JS.

(* ================================================================= *)
(** ** The data of [src/index.ts] *)

Import JSON JS.

Inductive ShortcutDefinition : Type :=
| Combination (s : string)
| Tokens (parts : list string).

Record ShortcutConfigResolved : Type := {
  undoShortcuts : list ShortcutDefinition;
  redoShortcuts : list ShortcutDefinition
}.

Record ShortcutConfiguration : Type := {
  undoOption : option (list ShortcutDefinition);
  redoOption : option (list ShortcutDefinition)
}.

Definition DEFAULT_SHORTCUTS : ShortcutConfigResolved := {|
  undoShortcuts := [Combination "CMD+Z"; Combination "CTRL+Z"];
  redoShortcuts := [Combination "CMD+SHIFT+Z"; Combination "CTRL+SHIFT+Z";
                    Combination "CTRL+Y"]
|}.

Module UndoConfig.
Record t : Type := {
  debounceMs : option Z;
  shortcuts : option ShortcutConfiguration;
  maxHistory : option Q
}.
End UndoConfig.

Module UndoState.
Record t : Type := {
  position : Z;
  count : Z;
  canUndo : bool;
  canRedo : bool
}.
End UndoState.

Record HistoryItem : Type := {
  blocks : list json;
  caretBlockIndex : option Z;
  caretOffset : option Z
}.

Record ResolvedUndoConfig : Type := {
  debounceMs : Z;
  maxHistory : Q;
  shortcuts : ShortcutConfigResolved
}.

(** The fields of an [EditorUndoManager].  The [onUpdate] observer and the
    editor are the host: calls to them are recorded as [Effect]s. *)
Record EditorUndoManager : Type := {
  config : ResolvedUndoConfig;
  history : list HistoryItem;
  position : Z;
  isSaving : bool;
  pendingSave : bool
}.

(** The recorded host calls: [config.onUpdate(state)], [editor.save()],
    [editor.render({blocks})], [editor.caret.setToBlock(index, 'end')] and
    [selection.addRange(range)] for a range collapsed at [offset] in the
    first child of block [index].  Other host calls ([createRange],
    [setStart], [collapse], [removeAllRanges], the reads of
    [getCaretPosition]) have no constructor. *)
Inductive Effect : Type :=
| OnUpdate (state : UndoState.t)
| EditorSave
| EditorRender (content : list json)
| CaretSetToBlock (index : Z)
| SelectionAddRange (index : Z) (offset : Z).

Inductive Completion : Type :=
| Returned
| Rejected.

(** What a call does: the manager it leaves, the host calls it made, and
    whether its promise resolved (or the call returned) or rejected (threw). *)
Record Outcome : Type := {
  after : EditorUndoManager;
  effects : list Effect;
  completion : Completion
}.

(** The caret that [getCaretPosition] read from the host at capture time. *)
Record Caret : Type := {
  blockIndex : option Z;
  offset : option Z
}.

(** The host as [restore] sees it: whether [editor.render] resolves, the
    holder element's [ce-block__content] nodes in block order (each with its
    first child's [textContent], when it has a first child), and whether
    [window.getSelection()] gives a selection. *)
Record BlockContent : Type := {
  firstChild : option (option string)
}.

Record Host : Type := {
  renderResolves : bool;
  holderElement : option (list BlockContent);
  windowSelection : bool
}.

Inductive InitialData : Type :=
| DataArray (items : list json)
| DataObject (members : list (string * json)).

Record KeyboardEvent : Type := {
  key : string;
  ctrlKey : bool;
  metaKey : bool;
  altKey : bool;
  shiftKey : bool
}.

(* ================================================================= *)
(** ** The methods of [EditorUndoManager] *)

Definition withHistory (h : list HistoryItem) (m : EditorUndoManager) : EditorUndoManager :=
  {| config := config m; history := h; position := position m;
     isSaving := isSaving m; pendingSave := pendingSave m |}.

Definition withPosition (p : Z) (m : EditorUndoManager) : EditorUndoManager :=
  {| config := config m; history := history m; position := p;
     isSaving := isSaving m; pendingSave := pendingSave m |}.

Definition withIsSaving (b : bool) (m : EditorUndoManager) : EditorUndoManager :=
  {| config := config m; history := history m; position := position m;
     isSaving := b; pendingSave := pendingSave m |}.

Definition withPendingSave (b : bool) (m : EditorUndoManager) : EditorUndoManager :=
  {| config := config m; history := history m; position := position m;
     isSaving := isSaving m; pendingSave := b |}.

Definition resolveShortcuts (input : option (list ShortcutDefinition))
    (fallback : list ShortcutDefinition) : list ShortcutDefinition :=
  match input with
  | None | Some [] => fallback
  | Some definitions => map (fun definition => definition) definitions
  end.

Definition constructor (cfg : UndoConfig.t) : EditorUndoManager := {|
  config := {|
    debounceMs := match UndoConfig.debounceMs cfg with Some d => d | None => 250 end;
    maxHistory := match UndoConfig.maxHistory cfg with Some n => n | None => inject_Z 100 end;
    shortcuts := {|
      undoShortcuts :=
        resolveShortcuts
          (match UndoConfig.shortcuts cfg with Some s => undoOption s | None => None end)
          (undoShortcuts DEFAULT_SHORTCUTS);
      redoShortcuts :=
        resolveShortcuts
          (match UndoConfig.shortcuts cfg with Some s => redoOption s | None => None end)
          (redoShortcuts DEFAULT_SHORTCUTS)
    |}
  |};
  history := [];
  position := -1;
  isSaving := false;
  pendingSave := false
|}.

Definition canUndo (m : EditorUndoManager) : bool := 0 <? position m.

Definition canRedo (m : EditorUndoManager) : bool :=
  (0 <=? position m) && (position m <? len (history m) - 1).

Definition getState (m : EditorUndoManager) : UndoState.t := {|
  UndoState.position := position m;
  UndoState.count := len (history m);
  UndoState.canUndo := canUndo m;
  UndoState.canRedo := canRedo m
|}.

Definition notify (m : EditorUndoManager) : list Effect := [OnUpdate (getState m)].

(** [JSON.parse(JSON.stringify(blocks))].  The text [stringify] produces
    always parses, and to an array (lemma [cloneBlocks_copy]); the last case
    is never taken. *)
Definition cloneBlocks (blocks : list json) : list json :=
  match parse (stringify (JArr blocks)) with
  | Some (JArr copy) => copy
  | _ => []
  end.

Definition lookupMember (name : string) (members : list (string * json)) : option json :=
  match find (fun m => String.eqb (fst m) name) members with
  | Some m => Some (snd m)
  | None => None
  end.

Definition extractBlocks (initialData : InitialData) : list json :=
  match initialData with
  | DataArray items => items
  | DataObject members =>
      match lookupMember "blocks" members with
      | Some (JArr items) => items
      | _ => []
      end
  end.

Definition initialize (initialData : InitialData) (m : EditorUndoManager) : Outcome :=
  let blocks := extractBlocks initialData in
  let m1 := withHistory [] m in
  let m2 := withHistory (history m1 ++
                           [{| blocks := cloneBlocks blocks;
                               caretBlockIndex := None;
                               caretOffset := None |}]) m1 in
  let m3 := withPosition 0 m2 in
  {| after := m3; effects := notify m3; completion := Returned |}.

Definition hasChanged (m : EditorUndoManager) (candidate : list json) : bool :=
  let current :=
    match at_ (history m) (position m) with
    | Some item => blocks item
    | None => []
    end in
  negb (String.eqb (stringify (JArr current)) (stringify (JArr candidate))).

Definition trimHistory (m : EditorUndoManager) : EditorUndoManager :=
  let m1 :=
    if position m <? len (history m) - 1
    then withHistory (splice1 (history m) (position m + 1)) m
    else m in
  if Qle_bool (maxHistory (config m1)) (inject_Z (len (history m1))) then
    let m2 := withHistory
                (splice2 (history m1) 0
                   (toIntegerOrInfinity
                      (inject_Z (len (history m1)) - maxHistory (config m1) + 1)%Q)) m1 in
    withPosition (len (history m2) - 1) m2
  else m1.

(** [captureSnapshot] up to its [await this.editor.save()]. *)
Definition captureBegin (m : EditorUndoManager) : EditorUndoManager * list Effect :=
  (withIsSaving true m, [EditorSave]).

(** [captureSnapshot] from the point where [editor.save()] settles: [saved]
    is the [blocks] of its output, or [None] when it rejected; [caret] is
    what [getCaretPosition] returns at that moment. *)
Definition captureEnd (saved : option (list json)) (caret : Caret)
    (m : EditorUndoManager) : Outcome :=
  match saved with
  | None => {| after := withIsSaving false m; effects := []; completion := Rejected |}
  | Some output =>
      if hasChanged m output then
        let m1 := trimHistory m in
        let m2 := withHistory (history m1 ++
                                 [{| blocks := cloneBlocks output;
                                     caretBlockIndex := blockIndex caret;
                                     caretOffset := offset caret |}]) m1 in
        let m3 := withPosition (len (history m2) - 1) m2 in
        {| after := withIsSaving false m3; effects := notify m3; completion := Returned |}
      else
        {| after := withIsSaving false m; effects := []; completion := Returned |}
  end.

(** A capture that runs to its end with nothing in between. *)
Definition captureSnapshot (saved : option (list json)) (caret : Caret)
    (m : EditorUndoManager) : Outcome :=
  let (m1, called) := captureBegin m in
  let out := captureEnd saved caret m1 in
  {| after := after out; effects := called ++ effects out; completion := completion out |}.

(** The recorded calls of [restoreCaret].  The DOM calls are taken to
    return; the source does not catch what they throw. *)
Definition restoreCaret (host : Host) (item : HistoryItem) : list Effect :=
  match caretBlockIndex item, caretOffset item with
  | Some index, Some stored =>
      match holderElement host with
      | None => []
      | Some contents =>
          match at_ contents index with
          | None => []
          | Some blockContent =>
              match firstChild blockContent with
              | None => []
              | Some textContent =>
                  if windowSelection host then
                    let length :=
                      match textContent with
                      | Some text => Z.of_nat (String.length text)
                      | None => 0
                      end in
                    [CaretSetToBlock index; SelectionAddRange index (Z.min stored length)]
                  else []
              end
          end
      end
  | _, _ => []
  end.

(** [restore(this.history[this.position])]: reading [item.blocks] of an
    [undefined] item throws before anything is rendered. *)
Definition restore (host : Host) (item : option HistoryItem) : list Effect * Completion :=
  match item with
  | None => ([], Rejected)
  | Some item =>
      if renderResolves host
      then (EditorRender (cloneBlocks (blocks item)) :: restoreCaret host item, Returned)
      else ([EditorRender (cloneBlocks (blocks item))], Rejected)
  end.

Definition undo (host : Host) (m : EditorUndoManager) : Outcome :=
  if negb (canUndo m) then {| after := m; effects := []; completion := Returned |}
  else
    let m1 := withPosition (position m - 1) m in
    match restore host (at_ (history m1) (position m1)) with
    | (done, Returned) =>
        {| after := m1; effects := done ++ notify m1; completion := Returned |}
    | (done, Rejected) =>
        {| after := m1; effects := done; completion := Rejected |}
    end.

Definition redo (host : Host) (m : EditorUndoManager) : Outcome :=
  if negb (canRedo m) then {| after := m; effects := []; completion := Returned |}
  else
    let m1 := withPosition (position m + 1) m in
    match restore host (at_ (history m1) (position m1)) with
    | (done, Returned) =>
        {| after := m1; effects := done ++ notify m1; completion := Returned |}
    | (done, Rejected) =>
        {| after := m1; effects := done; completion := Rejected |}
    end.

(** *** The shortcut matcher *)

Definition matchesShortcut (event : KeyboardEvent) (shortcut : ShortcutDefinition) : bool :=
  let combination :=
    match shortcut with
    | Tokens parts => parts
    | Combination s => split "+" s
    end in
  let normalized := map (fun part => toLowerCase (trim part)) combination in
  match pop normalized with
  | None => false
  | Some (normalized, key_) =>
      if String.eqb key_ EmptyString then false
      else
        let requiresCtrl := includes normalized "ctrl" || includes normalized "control" in
        let requiresMeta := includes normalized "cmd" || includes normalized "meta" in
        let requiresAlt := includes normalized "alt" in
        let requiresShift := includes normalized "shift" in
        if requiresCtrl && negb (ctrlKey event) then false
        else if requiresMeta && negb (metaKey event) then false
        else if requiresAlt && negb (altKey event) then false
        else if requiresShift && negb (shiftKey event) then false
        else if negb requiresCtrl && ctrlKey event then false
        else if negb requiresMeta && metaKey event then false
        else if negb requiresAlt && altKey event then false
        else if negb requiresShift && shiftKey event then false
        else String.eqb (toLowerCase (key event)) key_
  end.

Definition matches (event : KeyboardEvent) (shortcuts : list ShortcutDefinition) : bool :=
  existsb (matchesShortcut event) shortcuts.

(* ================================================================= *)
(** ** Sequences of settled operations *)

(** The public operations, each run to its end before the next starts.  A
    capture is what [handleEditorChange] amounts to once its debounce window
    has settled. *)
Inductive Operation : Type :=
| Initialize (initialData : InitialData)
| CaptureSnapshot (saved : option (list json)) (caret : Caret)
| Undo (host : Host)
| Redo (host : Host).

Definition perform (op : Operation) (m : EditorUndoManager) : Outcome :=
  match op with
  | Initialize initialData => initialize initialData m
  | CaptureSnapshot saved caret => captureSnapshot saved caret m
  | Undo host => undo host m
  | Redo host => redo host m
  end.

Fixpoint performAll (ops : list Operation) (m : EditorUndoManager) : EditorUndoManager :=
  match ops with
  | [] => m
  | op :: rest => performAll rest (after (perform op m))
  end.

Definition notifications (done : list Effect) : list UndoState.t :=
  flat_map (fun e => match e with OnUpdate state => [state] | _ => [] end) done.

Definition rendered (done : list Effect) : list (list json) :=
  flat_map (fun e => match e with EditorRender content => [content] | _ => [] end) done.

(* ================================================================= *)
(** ** The debounce coalescer on the event loop *)

Module Coalescer.

(** Where a run of the debounced function (the [async] arrow handed to
    [debounce] in the constructor) is suspended: in its first
    [await this.captureSnapshot()] or in the one behind [if (this.pendingSave)]. *)
Inductive Stage : Type :=
| FirstCapture
| ChainedCapture.

(** What an observer of the event loop sees, in order: a call of
    [handleEditorChange] (numbered from 0), a call to the host, the promise
    of a call resolving. *)
Inductive Mark : Type :=
| Requested (call : nat)
| HostCall (e : Effect)
| Resolved (call : nat).

(** [timeout] is the variable of that name in [debounce]: the armed timer,
    named by the call whose [resolve] its callback holds.  [suspended] are
    the runs of the debounced function waiting for [editor.save()]. *)
Record EventLoop : Type := {
  manager : EditorUndoManager;
  timeout : option nat;
  suspended : list (nat * Stage);
  calls : nat;
  trace : list Mark
}.

Inductive Event : Type :=
| HandleEditorChange
| TimerFires
| SaveSettles (run : nat) (saved : option (list json)) (caret : Caret).

Definition start (m : EditorUndoManager) : EventLoop :=
  {| manager := m; timeout := None; suspended := []; calls := 0; trace := [] |}.

Definition removeAt {A : Type} (i : nat) (l : list A) : list A :=
  firstn i l ++ skipn (S i) l.

Definition replaceAt {A : Type} (i : nat) (x : A) (l : list A) : list A :=
  firstn i l ++ x :: skipn (S i) l.

(** The synchronous part of [debounce]'s returned function: the pending
    timer is cleared and a new one armed; the promise stays pending. *)
Definition handleEditorChange (l : EventLoop) : EventLoop :=
  {| manager := manager l;
     timeout := Some (calls l);
     suspended := suspended l;
     calls := S (calls l);
     trace := trace l ++ [Requested (calls l)] |}.

(** The timer callback of call [call]: [timeout = null; await fn(); resolve()]
    up to the first suspension of [fn]. *)
Definition timerCallback (call : nat) (l : EventLoop) : EventLoop :=
  if isSaving (manager l) then
    {| manager := withPendingSave true (manager l);
       timeout := None;
       suspended := suspended l;
       calls := calls l;
       trace := trace l ++ [Resolved call] |}
  else
    let (m1, called) := captureBegin (manager l) in
    {| manager := m1;
       timeout := None;
       suspended := suspended l ++ [(call, FirstCapture)];
       calls := calls l;
       trace := trace l ++ map HostCall called |}.

(** The run [i] of the debounced function, resumed when its [editor.save()]
    settles, up to its next suspension or its end. *)
Definition resume (i : nat) (call : nat) (stage : Stage)
    (saved : option (list json)) (caret : Caret) (l : EventLoop) : EventLoop :=
  let out := captureEnd saved caret (manager l) in
  let seen := trace l ++ map HostCall (effects out) in
  match completion out, stage with
  | Rejected, _ =>
      {| manager := after out; timeout := timeout l;
         suspended := removeAt i (suspended l); calls := calls l; trace := seen |}
  | Returned, FirstCapture =>
      if pendingSave (after out) then
        let (m2, called) := captureBegin (withPendingSave false (after out)) in
        {| manager := m2; timeout := timeout l;
           suspended := replaceAt i (call, ChainedCapture) (suspended l);
           calls := calls l; trace := seen ++ map HostCall called |}
      else
        {| manager := after out; timeout := timeout l;
           suspended := removeAt i (suspended l); calls := calls l;
           trace := seen ++ [Resolved call] |}
  | Returned, ChainedCapture =>
      {| manager := after out; timeout := timeout l;
         suspended := removeAt i (suspended l); calls := calls l;
         trace := seen ++ [Resolved call] |}
  end.

(** One turn of the event loop; [None] when the event cannot happen (no
    timer armed, no such suspended run). *)
Definition step (e : Event) (l : EventLoop) : option EventLoop :=
  match e with
  | HandleEditorChange => Some (handleEditorChange l)
  | TimerFires =>
      match timeout l with
      | Some call => Some (timerCallback call l)
      | None => None
      end
  | SaveSettles i saved caret =>
      match nth_error (suspended l) i with
      | Some (call, stage) => Some (resume i call stage saved caret l)
      | None => None
      end
  end.

(** A schedule; events that cannot happen are skipped. *)
Fixpoint run (events : list Event) (l : EventLoop) : EventLoop :=
  match events with
  | [] => l
  | e :: rest =>
      match step e l with
      | Some l' => run rest l'
      | None => run rest l
      end
  end.

Definition saveCalls (t : list Mark) : nat :=
  List.length (filter (fun x => match x with HostCall EditorSave => true | _ => false end) t).

Definition isResolved (call : nat) (t : list Mark) : bool :=
  existsb (fun x => match x with Resolved c => Nat.eqb c call | _ => false end) t.

(** Nothing is armed and nothing is in flight: only a new
    [handleEditorChange] call can make the loop move again. *)
Definition idle (l : EventLoop) : bool :=
  match timeout l, suspended l with
  | None, [] => true
  | _, _ => false
  end.

(** Captures are serialized: [isSaving] is set exactly while one run of the
    debounced function waits for [editor.save()], and no second run waits. *)
Definition serialized (l : EventLoop) : Prop :=
  (isSaving (manager l) = true /\ exists r, suspended l = [r]) \/
  (isSaving (manager l) = false /\ suspended l = []).

(** A call that nothing can resolve any more: its timer is not armed, no
    suspended run holds its [resolve], and it has not resolved. *)
Definition abandoned (call : nat) (l : EventLoop) : Prop :=
  timeout l <> Some call /\
  ~ In call (map fst (suspended l)) /\
  (call < calls l)%nat /\
  isResolved call (trace l) = false.

(** The requests and the [editor.save()] calls of a trace, in order. *)
Definition requestsAndSaves (t : list Mark) : list Mark :=
  filter (fun x => match x with
                   | Requested _ | HostCall EditorSave => true
                   | _ => false
                   end) t.

(** A schedule in which the host makes no further [handleEditorChange] call. *)
Fixpoint noNewCall (events : list Event) : bool :=
  match events with
  | [] => true
  | HandleEditorChange :: _ => false
  | _ :: rest => noNewCall rest
  end.

End Coalescer.

(* ================================================================= *)
(** ** The specification's wording, for comparison *)

(** Structural equality as the specification words it for [hasChanged]:
    arrays compare element by element in order, objects compare as sets of
    members (key order irrelevant). *)
Fixpoint structurallyEqual (a b : json) : bool :=
  match a, b with
  | JNull, JNull => true
  | JBool x, JBool y => Bool.eqb x y
  | JNum x, JNum y => x =? y
  | JStr x, JStr y => String.eqb x y
  | JArr xs, JArr ys =>
      (fix all (l l' : list json) : bool :=
         match l, l' with
         | [], [] => true
         | x :: r, y :: r' => structurallyEqual x y && all r r'
         | _, _ => false
         end) xs ys
  | JObj ms, JObj ns =>
      (List.length ms =? List.length ns)%nat &&
      (fix all (l : list (string * json)) : bool :=
         match l with
         | [] => true
         | (name, x) :: r =>
             match lookupMember name ns with
             | Some y => structurallyEqual x y
             | None => false
             end && all r
         end) ms
  | _, _ => false
  end.

(** [hasChanged] as the specification words it: true when there is no
    current snapshot or the candidate is not structurally equal to it. *)
Definition hasChanged_spec (m : EditorUndoManager) (candidate : list json) : bool :=
  match at_ (history m) (position m) with
  | None => true
  | Some item => negb (structurallyEqual (JArr (blocks item)) (JArr candidate))
  end.

Inductive Modifier : Type := Ctrl | Meta | Alt | Shift.

Definition pressed (event : KeyboardEvent) (modifier : Modifier) : bool :=
  match modifier with
  | Ctrl => ctrlKey event
  | Meta => metaKey event
  | Alt => altKey event
  | Shift => shiftKey event
  end.

(** The tokens of a definition, trimmed and lower-cased. *)
Definition tokens (shortcut : ShortcutDefinition) : list string :=
  map (fun part => toLowerCase (trim part))
    (match shortcut with
     | Tokens parts => parts
     | Combination s => split "+" s
     end).

(** Whether the tokens before the key ask for a modifier. *)
Definition requires (modifiers : list string) (modifier : Modifier) : bool :=
  match modifier with
  | Ctrl => includes modifiers "ctrl" || includes modifiers "control"
  | Meta => includes modifiers "cmd" || includes modifiers "meta"
  | Alt => includes modifiers "alt"
  | Shift => includes modifiers "shift"
  end.

(** The match rule as the specification words it: the definition ends in a
    key token, exactly the required modifiers are pressed, and the event's
    key is that token up to case. *)
Definition matches_spec (event : KeyboardEvent) (shortcut : ShortcutDefinition) : Prop :=
  exists modifiers key_,
    tokens shortcut = modifiers ++ [key_] /\
    (forall modifier, requires modifiers modifier = true -> pressed event modifier = true) /\
    (forall modifier, requires modifiers modifier = false -> pressed event modifier = false) /\
    toLowerCase (key event) = key_.

(* ================================================================= *)
(** ** Notions the statements use *)

(** The cursor is [-1] or points into the history. *)
Definition wellFormed (m : EditorUndoManager) : Prop :=
  -1 <= position m < len (history m).

(** The history holds no more entries than [maxHistory] rounded up to an
    integer ([maxHistory] itself when it is one). *)
Definition bounded (m : EditorUndoManager) : Prop :=
  len (history m) <= Qceiling (maxHistory (config m)).

(** The entries up to and including the one at [position]. *)
Definition kept (m : EditorUndoManager) : list HistoryItem :=
  firstn (Z.to_nat (position m + 1)) (history m).

(** The entry a capture of [output] with caret [caret] appends. *)
Definition snapshot (output : list json) (caret : Caret) : HistoryItem :=
  {| blocks := output; caretBlockIndex := blockIndex caret; caretOffset := offset caret |}.

(** A call that returns normally having done nothing. *)
Definition unchanged (m : EditorUndoManager) : Outcome :=
  {| after := m; effects := []; completion := Returned |}.

(** The content [hasChanged] compares against:
    [this.history[this.position]?.blocks ?? []]. *)
Definition currentBlocks (m : EditorUndoManager) : list json :=
  match at_ (history m) (position m) with
  | Some item => blocks item
  | None => []
  end.

(** Sample data for the closed examples. *)
Module Sample.

Definition paragraph (id text : string) : json :=
  JObj [("id"%string, JStr id); ("type"%string, JStr "paragraph");
        ("data"%string, JObj [("text"%string, JStr text)])].

Definition cfg (limit : Z) : UndoConfig.t :=
  {| UndoConfig.debounceMs := Some 0;
     UndoConfig.shortcuts := None;
     UndoConfig.maxHistory := Some (inject_Z limit) |}.

(** A configuration whose [maxHistory] is the number 1.5. *)
Definition fractional : UndoConfig.t :=
  {| UndoConfig.debounceMs := Some 0;
     UndoConfig.shortcuts := None;
     UndoConfig.maxHistory := Some (3 # 2)%Q |}.

Definition first : list json := [paragraph "1" "First"].
Definition second : list json := [paragraph "1" "First"; paragraph "2" "Second"].
Definition third : list json := [paragraph "1" "First"; paragraph "3" "Third"].

Definition caret : Caret := {| blockIndex := Some 0; offset := Some 5 |}.

Definition host : Host :=
  {| renderResolves := true;
     holderElement := Some [{| firstChild := Some (Some "Hello"%string) |}];
     windowSelection := true |}.

Definition keydown (k : string) (ctrl shift : bool) : KeyboardEvent :=
  {| key := k; ctrlKey := ctrl; metaKey := false; altKey := false; shiftKey := shift |}.

End Sample.

(* ================================================================= *)
(** ** Caret capture and key handling *)

(** What a call into the host gives: a value, or an exception. *)
Inductive Answer (A : Type) : Type :=
| Gives (a : A)
| Throws.

Arguments Gives {A} a.
Arguments Throws {A}.

(** The host as [getCaretPosition] sees it: the answers of
    [editor.blocks.getCurrentBlockIndex()] ([None] is [undefined] or [null])
    and [editor.blocks.getBlockByIndex(i)] (whether it gives a block), the
    page ([page], as for [restore]), [selection.rangeCount], and the text of
    [preRange] once the range calls have run, or their exception. *)
Record CaretHost : Type := {
  getCurrentBlockIndex : Answer (option Z);
  getBlockByIndex : Z -> Answer bool;
  page : Host;
  rangeCount : Z;
  preRangeText : Answer string
}.

Definition noCaret : Caret := {| blockIndex := None; offset := None |}.

Definition getCaretPosition (h : CaretHost) : Caret :=
  match getCurrentBlockIndex h with
  | Throws => noCaret
  | Gives None => noCaret
  | Gives (Some currentBlockIndex) =>
      match getBlockByIndex h currentBlockIndex with
      | Throws => noCaret
      | Gives false => noCaret
      | Gives true =>
          match holderElement (page h) with
          | None => {| blockIndex := Some currentBlockIndex; offset := None |}
          | Some contents =>
              match at_ contents currentBlockIndex with
              | None => {| blockIndex := Some currentBlockIndex; offset := None |}
              | Some content =>
                  match firstChild content with
                  | None => {| blockIndex := Some currentBlockIndex; offset := None |}
                  | Some _ =>
                      if negb (windowSelection (page h)) || (rangeCount h =? 0)
                      then {| blockIndex := Some currentBlockIndex; offset := None |}
                      else
                        match preRangeText h with
                        | Throws => noCaret
                        | Gives text =>
                            {| blockIndex := Some currentBlockIndex;
                               offset := Some (Z.of_nat (String.length text)) |}
                        end
                  end
              end
          end
      end
  end.

(** [handleKeyDown]: whether [event.preventDefault()] is called, and what
    the [undo()] or [redo()] it starts does. *)
Definition handleKeyDown (host : Host) (event : KeyboardEvent) (m : EditorUndoManager)
  : bool * Outcome :=
  if matches event (undoShortcuts (shortcuts (config m))) then (true, undo host m)
  else if matches event (redoShortcuts (shortcuts (config m))) then (true, redo host m)
  else (false, unchanged m).

(** The snapshot [initialize] stores. *)
Definition seed (initialData : InitialData) : HistoryItem :=
  {| blocks := extractBlocks initialData; caretBlockIndex := None; caretOffset := None |}.

(** Where an entry of the history can come from: an [initialize] or a
    capture whose [editor.save()] resolved, among the operations [ops]. *)
Definition originates (item : HistoryItem) (ops : list Operation) : Prop :=
  (exists initialData, In (Initialize initialData) ops /\ item = seed initialData) \/
  (exists output caret, In (CaptureSnapshot (Some output) caret) ops /\
                        item = snapshot output caret).

(** Every capture of [ops] took its caret from [getCaretPosition]. *)
Definition caretsFromHost (ops : list Operation) : Prop :=
  forall saved caret, In (CaptureSnapshot saved caret) ops ->
                      exists h, caret = getCaretPosition h.

(** A stored caret offset comes with a block index and is not negative. *)
Definition caretConsistent (item : HistoryItem) : Prop :=
  forall stored, caretOffset item = Some stored ->
                 0 <= stored /\ exists index, caretBlockIndex item = Some index.

(** The same key event with another [key]. *)
Definition withKey (k : string) (event : KeyboardEvent) : KeyboardEvent :=
  {| key := k; ctrlKey := ctrlKey event; metaKey := metaKey event;
     altKey := altKey event; shiftKey := shiftKey event |}.


(** Once there is a snapshot the cursor is on one. *)
Definition anchored (m : EditorUndoManager) : Prop :=
  wellFormed m /\ (position m = -1 -> history m = []).

(** More sample data: a host for [getCaretPosition] and a stored caret
    beyond the end of the text. *)
Module SampleCaret.

Definition caretHost : CaretHost :=
  {| getCurrentBlockIndex := Gives (Some 0);
     getBlockByIndex := fun _ => Gives true;
     page := Sample.host;
     rangeCount := 1;
     preRangeText := Gives "Hello"%string |}.


Definition failingHost : Host :=
  {| renderResolves := false;
     holderElement := None;
     windowSelection := false |}.

End SampleCaret.

Module CoalescerState.
Import Coalescer.

(** What holds of the calls in every state the loop reaches: the armed call
    and the suspended ones have been made, are distinct and have not
    resolved, and only calls that were made have resolved. *)
Definition coherent (l : EventLoop) : Prop :=
  (forall c, timeout l = Some c ->
             (c < calls l)%nat /\ ~ In c (map fst (suspended l)) /\
             isResolved c (trace l) = false) /\
  (forall c, In c (map fst (suspended l)) ->
             (c < calls l)%nat /\ isResolved c (trace l) = false) /\
  (forall c, isResolved c (trace l) = true -> (c < calls l)%nat).

End CoalescerState.

(* ================================================================= *)
(** ** [JSON.parse] inverts [JSON.stringify] *)

Module JSONFacts.
Import JSON.

Section JsonInduction.
Variable P : json -> Prop.
Hypothesis HNull : P JNull.
Hypothesis HBool : forall b, P (JBool b).
Hypothesis HNum : forall n, P (JNum n).
Hypothesis HStr : forall s, P (JStr s).
Hypothesis HArr : forall items, Forall P items -> P (JArr items).
Hypothesis HObj : forall members, Forall (fun m => P (snd m)) members -> P (JObj members).

Fixpoint json_ind (v : json) : P v :=
  match v with
  | JNull => HNull
  | JBool b => HBool b
  | JNum n => HNum n
  | JStr s => HStr s
  | JArr items =>
      HArr items
        ((fix all (l : list json) : Forall P l :=
            match l with
            | [] => Forall_nil P
            | x :: xs => Forall_cons x (json_ind x) (all xs)
            end) items)
  | JObj members =>
      HObj members
        ((fix all (l : list (string * json)) : Forall (fun m => P (snd m)) l :=
            match l with
            | [] => Forall_nil _
            | m :: ms => Forall_cons m (json_ind (snd m)) (all ms)
            end) members)
  end.
End JsonInduction.

Lemma write_arr_cons x xs k :
  write (JArr (x :: xs)) k = String "[" (write x (writeItems xs k)).
Proof.
  simpl.
  match goal with
  | |- context [write x (?F xs)] => assert (E : forall l, F l = writeItems l k)
  end.
  { induction l as [|y ys IH]; simpl; [reflexivity | now rewrite IH]. }
  now rewrite E.
Qed.

Lemma write_obj_cons key x ms k :
  write (JObj ((key, x) :: ms)) k =
  String "{" (quote key (String ":" (write x (writeMembers ms k)))).
Proof.
  simpl.
  match goal with
  | |- context [write x (?F ms)] => assert (E : forall l, F l = writeMembers l k)
  end.
  { induction l as [|[key' y] ys IH]; simpl; [reflexivity | now rewrite IH]. }
  now rewrite E.
Qed.

Lemma size_arr_cons x xs : size (JArr (x :: xs)) = S (Nat.max (size x) (sizeItems xs)).
Proof.
  cbn [size].
  match goal with
  | |- context [Nat.max (size x) (?F xs)] => assert (E : forall l, F l = sizeItems l)
  end.
  { induction l as [|y ys IH]; cbn [sizeItems]; [reflexivity | now rewrite IH]. }
  now rewrite E.
Qed.

Lemma size_obj_cons key x ms :
  size (JObj ((key, x) :: ms)) = S (Nat.max (S (size x)) (sizeMembers ms)).
Proof.
  cbn [size].
  match goal with
  | |- context [Nat.max (S (size x)) (?F ms)] => assert (E : forall l, F l = sizeMembers l)
  end.
  { induction l as [|[key' y] ys IH]; cbn [sizeMembers]; [reflexivity | now rewrite IH]. }
  now rewrite E.
Qed.

Lemma readChars_quoteChar c k :
  readChars (quoteChar c k) =
  match readChars k with
  | Some (str, r) => Some (String c str, r)
  | None => None
  end.
Proof.
  destruct c as [[] [] [] [] [] [] [] []]; reflexivity.
Qed.

Lemma readChars_quoteChars s k : readChars (quoteChars s k) = Some (s, k).
Proof.
  induction s as [|c s IH]; simpl.
  - reflexivity.
  - rewrite readChars_quoteChar, IH. reflexivity.
Qed.

Lemma readUint_writeUint d k :
  endsNumber k -> readUint (writeUint d k) = (d, k).
Proof.
  intros Hk. induction d; simpl; try (rewrite IHd; reflexivity).
  destruct k as [|c r]; simpl in *; [reflexivity|]. now rewrite Hk.
Qed.

Lemma to_uint_valid p : validDigits (Pos.to_uint p) = true.
Proof.
  pose proof (DecimalPos.Unsigned.to_of (Pos.to_uint p)) as Hnorm.
  rewrite DecimalPos.Unsigned.of_to in Hnorm. simpl in Hnorm.
  pose proof (DecimalPos.Unsigned.to_uint_nonzero p) as Hnz.
  pose proof (DecimalPos.Unsigned.to_uint_nonnil p) as Hnn.
  destruct (Pos.to_uint p) as [|d|d|d|d|d|d|d|d|d|d] eqn:E; try reflexivity; try congruence.
  exfalso. rewrite DecimalFacts.unorm_D0 in Hnorm.
  unfold Decimal.unorm in Hnorm.
  pose proof (DecimalFacts.nzhead_nonzero d) as Hhead.
  destruct (Decimal.nzhead d) eqn:En; try (symmetry in Hnorm; exact (Hhead _ Hnorm));
    try discriminate.
  inversion Hnorm; subst. apply Hnz. reflexivity.
Qed.

Lemma readNumber_writeNumber n k :
  endsNumber k -> readNumber (writeNumber n k) = Some (JNum n, k).
Proof.
  intros Hk. unfold writeNumber.
  pose proof (DecimalZ.of_to n) as Hn.
  destruct n as [|p|p]; simpl in *.
  - destruct k as [|c r]; simpl in *; [reflexivity|]. now rewrite Hk.
  - pose proof (to_uint_valid p) as Hv.
    pose proof (readUint_writeUint (Pos.to_uint p) k Hk) as Hr.
    destruct (Pos.to_uint p) as [|d|d|d|d|d|d|d|d|d|d] eqn:E; try discriminate;
      unfold readNumber; cbn [writeUint]; cbn [writeUint] in Hr;
      rewrite Hr, Hv; simpl; now rewrite Hn.
  - pose proof (to_uint_valid p) as Hv.
    pose proof (readUint_writeUint (Pos.to_uint p) k Hk) as Hr.
    unfold readNumber. simpl. rewrite Hr, Hv. simpl in Hn. now rewrite Hn.
Qed.

Lemma write_starts v k : startsValue (write v k).
Proof.
  destruct v as [|[]|n|s|items|members]; try reflexivity.
  unfold write, writeNumber.
  destruct n as [|p|p]; try reflexivity. simpl.
  pose proof (DecimalPos.Unsigned.to_uint_nonnil p) as Hnn.
  destruct (Pos.to_uint p); try congruence; reflexivity.
Qed.

Lemma endsNumber_items l k : endsNumber (writeItems l k).
Proof. destruct l; reflexivity. Qed.

Lemma endsNumber_members l k : endsNumber (writeMembers l k).
Proof. destruct l as [|[key y] l]; reflexivity. Qed.

Lemma size_pos v : (1 <= size v)%nat.
Proof.
  destruct v as [| | | |[|x xs]|[|[key x] ms]]; simpl; lia.
Qed.

Lemma writeNumber_starts n k :
  exists c r, writeNumber n k = String c r /\ (isDigit c || (c =? "-")%char) = true.
Proof.
  unfold writeNumber. destruct n as [|p|p]; simpl.
  - do 2 eexists. split; reflexivity.
  - pose proof (DecimalPos.Unsigned.to_uint_nonnil p) as Hnn.
    destruct (Pos.to_uint p); try congruence; do 2 eexists; split; reflexivity.
  - do 2 eexists. split; reflexivity.
Qed.

Lemma parseValue_number fuel c r :
  (isDigit c || (c =? "-")%char) = true ->
  parseValue (S fuel) (String c r) = readNumber (String c r).
Proof.
  destruct c as [[] [] [] [] [] [] [] []]; intros H; try discriminate H; reflexivity.
Qed.

Lemma parse_write_fuel fuel :
  (forall v k, endsNumber k -> (size v <= fuel)%nat ->
               parseValue fuel (write v k) = Some (v, k)) /\
  (forall l k, endsNumber k -> (sizeItems l <= fuel)%nat ->
               parseItems fuel (writeItems l k) = Some (l, k)) /\
  (forall key x k, endsNumber k -> (S (size x) <= fuel)%nat ->
               parseMember fuel (quote key (String ":" (write x k))) = Some ((key, x), k)) /\
  (forall l k, endsNumber k -> (sizeMembers l <= fuel)%nat ->
               parseMembers fuel (writeMembers l k) = Some (l, k)).
Proof.
  induction fuel as [|fuel (IHv & IHi & IHm & IHms)].
  - repeat split.
    + intros v k _ H. pose proof (size_pos v). lia.
    + intros [|y ys] k _ H; simpl in H; lia.
    + intros key x k _ H. lia.
    + intros [|[key y] ys] k _ H; simpl in H; lia.
  - repeat split.
    + intros v k Hk Hsz.
      destruct v as [|[]|n|s|[|x xs]|[|[key x] ms]]; try reflexivity.
      * (* number *)
        destruct (writeNumber_starts n k) as (c & r & E & Hc).
        cbn [write]. rewrite E, (parseValue_number _ _ _ Hc), <- E.
        now apply readNumber_writeNumber.
      * (* string *)
        cbn [write quote parseValue]. simpl. rewrite readChars_quoteChars. reflexivity.
      * (* array *)
        rewrite write_arr_cons. rewrite size_arr_cons in Hsz.
        pose proof (write_starts x (writeItems xs k)) as Hs.
        destruct (write x (writeItems xs k)) as [|c r] eqn:E; [contradiction|].
        simpl in Hs. cbn -[parseItems]. rewrite Hs, <- E.
        rewrite IHv by (auto using endsNumber_items; lia).
        rewrite IHi by (auto; lia). reflexivity.
      * (* object *)
        rewrite write_obj_cons. rewrite size_obj_cons in Hsz.
        unfold quote at 1. cbn -[parseMember parseMembers quoteChars].
        change (String dquote (quoteChars key (String ":" (write x (writeMembers ms k)))))
          with (quote key (String ":" (write x (writeMembers ms k)))).
        rewrite IHm by (auto using endsNumber_members; lia).
        rewrite IHms by (auto; lia). reflexivity.
    + intros [|y ys] k Hk Hsz; [reflexivity|].
      cbn [writeItems sizeItems] in *. cbn -[parseValue].
      rewrite IHv by (auto using endsNumber_items; lia).
      rewrite IHi by (auto; lia). reflexivity.
    + intros key x k Hk Hsz. unfold quote. cbn -[parseValue].
      rewrite readChars_quoteChars. cbn -[parseValue].
      rewrite IHv by (auto; lia). reflexivity.
    + intros [|[key y] ys] k Hk Hsz; [reflexivity|].
      cbn [writeMembers sizeMembers] in *. cbn -[parseMember quote].
      rewrite IHm by (auto using endsNumber_members; lia).
      rewrite IHms by (auto; lia). reflexivity.
Qed.

Lemma length_quoteChar c k : (String.length k < String.length (quoteChar c k))%nat.
Proof.
  unfold quoteChar.
  repeat match goal with
         | |- context [if ?b then _ else _] => destruct b
         end; simpl; lia.
Qed.

Lemma length_quote s k : (String.length k < String.length (quote s k))%nat.
Proof.
  unfold quote. simpl.
  induction s as [|c s IH]; simpl; [lia|].
  pose proof (length_quoteChar c (quoteChars s k)). lia.
Qed.

Lemma length_writeUint d k : (String.length k <= String.length (writeUint d k))%nat.
Proof. induction d; simpl; lia. Qed.

Lemma length_writeNumber n k : (String.length k < String.length (writeNumber n k))%nat.
Proof.
  unfold writeNumber. destruct n as [|p|p]; simpl; try lia.
  - pose proof (DecimalPos.Unsigned.to_uint_nonnil p) as Hnn.
    destruct (Pos.to_uint p) as [|d|d|d|d|d|d|d|d|d|d]; try congruence;
      pose proof (length_writeUint d k); simpl; lia.
  - pose proof (length_writeUint (Pos.to_uint p) k). lia.
Qed.

Lemma length_write v : forall k, (String.length k < String.length (write v k))%nat.
Proof.
  induction v as [|b|n|s|items IH|members IH] using json_ind; intros k.
  - simpl. lia.
  - destruct b; simpl; lia.
  - apply length_writeNumber.
  - apply length_quote.
  - destruct items as [|x xs]; [simpl; lia|].
    rewrite write_arr_cons. inversion IH as [|? ? Hx Hxs]; subst.
    assert (Hi : (String.length k < String.length (writeItems xs k))%nat).
    { clear Hx IH. induction Hxs as [|y ys Hy _ IHl]; simpl; [lia|].
      specialize (Hy (writeItems ys k)). lia. }
    specialize (Hx (writeItems xs k)). simpl. lia.
  - destruct members as [|[key x] ms]; [simpl; lia|].
    rewrite write_obj_cons. inversion IH as [|? ? Hx Hxs]; subst. simpl in Hx.
    assert (Hi : (String.length k < String.length (writeMembers ms k))%nat).
    { clear Hx IH. induction Hxs as [|[key' y] ys Hy _ IHl]; simpl; [lia|].
      specialize (Hy (writeMembers ys k)). simpl in Hy.
      pose proof (length_quote key' (String ":" (write y (writeMembers ys k)))) as Hq.
      simpl in Hq. lia. }
    specialize (Hx (writeMembers ms k)).
    pose proof (length_quote key (String ":" (write x (writeMembers ms k)))) as Hq.
    simpl in *. lia.
Qed.

Lemma size_le_length v : forall k, (size v <= String.length (write v k))%nat.
Proof.
  induction v as [|b|n|s|items IH|members IH] using json_ind; intros k.
  - simpl. lia.
  - pose proof (length_write (JBool b) k). simpl size. lia.
  - pose proof (length_write (JNum n) k). simpl size. lia.
  - pose proof (length_write (JStr s) k). simpl size. lia.
  - destruct items as [|x xs]; [simpl; lia|].
    rewrite write_arr_cons, size_arr_cons. inversion IH as [|? ? Hx Hxs]; subst.
    assert (Hi : (sizeItems xs <= String.length (writeItems xs k))%nat).
    { clear Hx IH. induction Hxs as [|y ys Hy _ IHl]; cbn [sizeItems writeItems String.length]; [lia|].
      specialize (Hy (writeItems ys k)).
      pose proof (length_write y (writeItems ys k)). lia. }
    specialize (Hx (writeItems xs k)).
    pose proof (length_write x (writeItems xs k)). cbn [String.length]. lia.
  - destruct members as [|[key x] ms]; [simpl; lia|].
    rewrite write_obj_cons, size_obj_cons. inversion IH as [|? ? Hx Hxs]; subst. simpl in Hx.
    assert (Hi : (sizeMembers ms <= String.length (writeMembers ms k))%nat).
    { clear Hx IH. induction Hxs as [|[key' y] ys Hy _ IHl];
        cbn [sizeMembers writeMembers String.length]; [lia|].
      specialize (Hy (writeMembers ys k)). simpl in Hy.
      pose proof (length_write y (writeMembers ys k)).
      pose proof (length_quote key' (String ":" (write y (writeMembers ys k)))) as Hq.
      cbn [String.length] in Hq. lia. }
    specialize (Hx (writeMembers ms k)).
    pose proof (length_write x (writeMembers ms k)).
    pose proof (length_quote key (String ":" (write x (writeMembers ms k)))) as Hq.
    cbn [String.length] in *. lia.
Qed.

(** [JSON.parse(JSON.stringify(v))] rebuilds [v]. *)
Theorem parse_stringify v : parse (stringify v) = Some v.
Proof.
  unfold parse, stringify.
  destruct (parse_write_fuel (S (String.length (write v EmptyString)))) as (H & _).
  rewrite H; [reflexivity | exact I |].
  pose proof (size_le_length v EmptyString). lia.
Qed.

Corollary stringify_inj v w : stringify v = stringify w -> v = w.
Proof.
  intros E. pose proof (parse_stringify v) as Hv. rewrite E, parse_stringify in Hv.
  congruence.
Qed.

End JSONFacts.

(* ================================================================= *)
(** ** The snapshot store and the navigation controller *)

Module ManagerFacts.

Lemma cloneBlocks_copy blocks : cloneBlocks blocks = blocks.
Proof. unfold cloneBlocks. now rewrite JSONFacts.parse_stringify. Qed.

Lemma len_nonneg {A} (l : list A) : 0 <= len l.
Proof. unfold len. lia. Qed.

Lemma len_app {A} (l l' : list A) : len (l ++ l') = len l + len l'.
Proof. unfold len. rewrite length_app. lia. Qed.

Lemma len_firstn {A} (l : list A) n : 0 <= n <= len l -> len (firstn (Z.to_nat n) l) = n.
Proof. unfold len. intros H. rewrite length_firstn. lia. Qed.

Lemma at_last {A} (l : list A) (x : A) : at_ (l ++ [x])%list (len (l ++ [x])%list - 1) = Some x.
Proof.
  unfold at_. rewrite len_app. unfold len. simpl.
  destruct (Z.ltb_spec (Z.of_nat (List.length l) + 1 - 1) 0); [lia|].
  replace (Z.to_nat (Z.of_nat (List.length l) + 1 - 1)) with (List.length l) by lia.
  rewrite nth_error_app2 by apply Nat.le_refl. now rewrite Nat.sub_diag.
Qed.

(** Splits on the two tests of [trimHistory]. *)
Ltac trim_cases m :=
  unfold trimHistory; simpl;
  destruct (position m <? len (history m) - 1); simpl;
  match goal with |- context [if ?b then _ else _] => destruct b end.

Lemma trimHistory_config m : config (trimHistory m) = config m.
Proof. trim_cases m; reflexivity. Qed.

(** The number of entries [trimHistory] removes from the front of the
    kept ones when they have reached [maxHistory]. *)
Lemma trimHistory_history m :
  wellFormed m ->
  history (trimHistory m) =
  if Qle_bool (maxHistory (config m)) (inject_Z (len (kept m)))
  then skipn (Z.to_nat (Z.min (Z.max (toIntegerOrInfinity
                                        (inject_Z (len (kept m)) - maxHistory (config m) + 1)%Q) 0)
                          (len (kept m))))
         (kept m)
  else kept m.
Proof.
  intros [Hlo Hhi]. unfold trimHistory, kept.
  set (m1 := if position m <? len (history m) - 1
             then withHistory (splice1 (history m) (position m + 1)) m
             else m).
  assert (Hk : history m1 = firstn (Z.to_nat (position m + 1)) (history m)).
  { subst m1. destruct (Z.ltb_spec (position m) (len (history m) - 1)); simpl.
    - unfold splice1, relativeStart.
      destruct (Z.ltb_spec (position m + 1) 0); [lia|].
      f_equal. lia.
    - replace (position m + 1) with (len (history m)) by lia.
      unfold len. rewrite Nat2Z.id. symmetry. apply firstn_all. }
  assert (Hc : config m1 = config m).
  { subst m1. destruct (position m <? len (history m) - 1); reflexivity. }
  clearbody m1. rewrite Hc, Hk.
  destruct (Qle_bool (maxHistory (config m))
              (inject_Z (len (firstn (Z.to_nat (position m + 1)) (history m)))));
    simpl; [|exact Hk].
  unfold splice2, relativeStart. simpl.
  pose proof (len_nonneg (firstn (Z.to_nat (position m + 1)) (history m))).
  rewrite Z.min_l by lia. simpl. f_equal. f_equal. lia.
Qed.

Lemma Qfloor_unique x z :
  (inject_Z z <= x)%Q -> (x < inject_Z (z + 1))%Q -> Qfloor x = z.
Proof.
  intros Hlo Hhi.
  pose proof (Qfloor_le x) as Hf. pose proof (Qlt_floor x) as Hf'.
  assert (H1 : (inject_Z (Qfloor x) < inject_Z (z + 1))%Q) by lra.
  assert (H2 : (inject_Z z < inject_Z (Qfloor x + 1))%Q) by lra.
  rewrite <- Zlt_Qlt in H1, H2. lia.
Qed.
(** With [maxHistory >= 1] reached by [n] entries, the splice of
    [trimHistory] removes [n + 1 - ceiling maxHistory] of them. *)
Lemma excess_entries n limit :
  (1 <= limit)%Q -> (limit <= inject_Z n)%Q ->
  toIntegerOrInfinity (inject_Z n - limit + 1)%Q = n + 1 - Qceiling limit /\
  1 <= Qceiling limit <= n.
Proof.
  intros H1 Hn.
  pose proof (Qle_ceiling limit) as Hc. pose proof (Qceiling_lt limit) as Hc'.
  assert (Hone : 1 <= Qceiling limit).
  { change 1 with (Qceiling (inject_Z 1)). now apply Qceiling_resp_le. }
  assert (Htop : Qceiling limit <= n).
  { rewrite <- (Qceiling_Z n). now apply Qceiling_resp_le. }
  split; [|lia].
  unfold toIntegerOrInfinity.
  assert (Hpos : Qle_bool 0 (inject_Z n - limit + 1) = true) by (apply Qle_bool_iff; lra).
  rewrite Hpos. apply Qfloor_unique.
  - unfold Z.sub. rewrite !inject_Z_plus, inject_Z_opp.
    change (inject_Z 1) with 1%Q.
    generalize dependent (inject_Z (Qceiling limit)). generalize dependent (inject_Z n).
    intros. lra.
  - unfold Z.sub in Hc'. rewrite inject_Z_plus, inject_Z_opp in Hc'.
    change (inject_Z 1) with 1%Q in Hc'.
    unfold Z.sub. rewrite !inject_Z_plus, inject_Z_opp.
    change (inject_Z 1) with 1%Q.
    generalize dependent (inject_Z (Qceiling limit)). generalize dependent (inject_Z n).
    intros. lra.
Qed.

Lemma ceiling_ge_one limit : (1 <= limit)%Q -> 1 <= Qceiling limit.
Proof.
  intros H. change 1 with (Qceiling (inject_Z 1)). now apply Qceiling_resp_le.
Qed.

Lemma below_limit n limit :
  ~ (limit <= inject_Z n)%Q -> n < Qceiling limit.
Proof.
  intros H. pose proof (Qle_ceiling limit) as Hc.
  rewrite Zlt_Qlt.
  generalize dependent (inject_Z (Qceiling limit)). generalize dependent (inject_Z n).
  intros. lra.
Qed.

Lemma captureEnd_push output caret m :
  hasChanged m output = true ->
  captureEnd (Some output) caret m =
  {| after := withIsSaving false
                (withPosition (len (history (trimHistory m) ++ [snapshot output caret]) - 1)
                   (withHistory (history (trimHistory m) ++ [snapshot output caret])
                      (trimHistory m)));
     effects := [OnUpdate (getState
                   (withPosition (len (history (trimHistory m) ++ [snapshot output caret]) - 1)
                      (withHistory (history (trimHistory m) ++ [snapshot output caret])
                         (trimHistory m))))];
     completion := Returned |}.
Proof.
  intros H. unfold captureEnd. rewrite H. unfold snapshot. rewrite cloneBlocks_copy.
  reflexivity.
Qed.

Lemma captureEnd_same output caret m :
  hasChanged m output = false ->
  captureEnd (Some output) caret m =
  {| after := withIsSaving false m; effects := []; completion := Returned |}.
Proof. intros H. unfold captureEnd. now rewrite H. Qed.

Lemma captureSnapshot_after saved caret m :
  after (captureSnapshot saved caret m) = after (captureEnd saved caret (withIsSaving true m)).
Proof. reflexivity. Qed.

Lemma trimHistory_withIsSaving b m :
  trimHistory (withIsSaving b m) = withIsSaving b (trimHistory m).
Proof. trim_cases m; reflexivity. Qed.

(** After a push the cursor is on the tail and there is nothing to redo. *)
Lemma push_at_tail output caret m :
  hasChanged m output = true ->
  let m' := after (captureSnapshot (Some output) caret m) in
  position m' = len (history m') - 1 /\ canRedo m' = false.
Proof.
  intros H m'. subst m'. rewrite captureSnapshot_after, captureEnd_push by exact H.
  unfold canRedo. simpl. split; [reflexivity|].
  apply andb_false_iff. right. apply Z.ltb_ge. lia.
Qed.

Lemma push_history output caret m :
  wellFormed m -> (1 <= maxHistory (config m))%Q ->
  hasChanged m output = true ->
  let pushed := (kept m ++ [snapshot output caret])%list in
  history (after (captureSnapshot (Some output) caret m)) =
  skipn (List.length pushed - Z.to_nat (Qceiling (maxHistory (config m)))) pushed.
Proof.
  intros Hwf Hmax H pushed. subst pushed.
  rewrite captureSnapshot_after, captureEnd_push by exact H. simpl.
  rewrite trimHistory_withIsSaving. simpl. rewrite trimHistory_history by exact Hwf.
  pose proof (len_nonneg (kept m)) as Hk.
  rewrite length_app. simpl.
  destruct (Qle_bool (maxHistory (config m)) (inject_Z (len (kept m)))) eqn:E.
  - apply Qle_bool_iff in E.
    destruct (excess_entries (len (kept m)) (maxHistory (config m)) Hmax E) as [-> Hc].
    unfold len in *. rewrite skipn_app.
    replace (Z.to_nat (Z.min (Z.max (Z.of_nat (List.length (kept m)) + 1
                                     - Qceiling (maxHistory (config m))) 0)
                         (Z.of_nat (List.length (kept m)))))
      with (List.length (kept m) + 1 - Z.to_nat (Qceiling (maxHistory (config m))))%nat by lia.
    replace (List.length (kept m) + 1 - Z.to_nat (Qceiling (maxHistory (config m)))
             - List.length (kept m))%nat
      with 0%nat by lia.
    reflexivity.
  - assert (Hb : len (kept m) < Qceiling (maxHistory (config m))).
    { apply below_limit. rewrite <- Qle_bool_iff, E. discriminate. }
    unfold len in *.
    replace (List.length (kept m) + 1 - Z.to_nat (Qceiling (maxHistory (config m))))%nat
      with 0%nat by lia.
    reflexivity.
Qed.

Lemma perform_config op m : config (after (perform op m)) = config m.
Proof.
  destruct op as [data|[output|] caret|host|host]; cbn [perform].
  - reflexivity.
  - rewrite captureSnapshot_after. unfold captureEnd.
    destruct (hasChanged (withIsSaving true m) output); simpl; [|reflexivity].
    now rewrite trimHistory_config.
  - reflexivity.
  - unfold undo. destruct (negb (canUndo m)); [reflexivity|].
    destruct (restore host _) as [done []]; reflexivity.
  - unfold redo. destruct (negb (canRedo m)); [reflexivity|].
    destruct (restore host _) as [done []]; reflexivity.
Qed.

Lemma perform_wellFormed op m : wellFormed m -> wellFormed (after (perform op m)).
Proof.
  intros Hwf. destruct op as [data|[output|] caret|host|host]; cbn [perform].
  - unfold wellFormed, len. simpl. lia.
  - destruct (hasChanged m output) eqn:E.
    + destruct (push_at_tail output caret m E) as [Hp _].
      unfold wellFormed. rewrite Hp.
      rewrite captureSnapshot_after, captureEnd_push by exact E. simpl.
      rewrite len_app. pose proof (len_nonneg (history (trimHistory (withIsSaving true m)))).
      unfold len at 2. simpl. lia.
    + rewrite captureSnapshot_after, captureEnd_same by exact E. exact Hwf.
  - exact Hwf.
  - unfold undo, canUndo. destruct (Z.ltb_spec 0 (position m)); simpl; [|exact Hwf].
    destruct (restore host _) as [done []]; unfold wellFormed in *; simpl; lia.
  - unfold redo, canRedo. destruct (Z.leb_spec 0 (position m)); simpl; [|exact Hwf].
    destruct (Z.ltb_spec (position m) (len (history m) - 1)); simpl; [|exact Hwf].
    destruct (restore host _) as [done []]; unfold wellFormed in *; simpl; lia.
Qed.

Lemma perform_bounded op m :
  wellFormed m -> (1 <= maxHistory (config m))%Q -> bounded m ->
  bounded (after (perform op m)).
Proof.
  intros Hwf Hmax Hb. unfold bounded. rewrite perform_config.
  pose proof (ceiling_ge_one _ Hmax) as Hone.
  destruct op as [data|[output|] caret|host|host]; cbn [perform].
  - unfold len. simpl. lia.
  - destruct (hasChanged m output) eqn:E.
    + rewrite push_history by assumption.
      unfold len. rewrite length_skipn. lia.
    + rewrite captureSnapshot_after, captureEnd_same by exact E. exact Hb.
  - exact Hb.
  - unfold undo. destruct (negb (canUndo m)); [exact Hb|].
    destruct (restore host _) as [done []]; exact Hb.
  - unfold redo. destruct (negb (canRedo m)); [exact Hb|].
    destruct (restore host _) as [done []]; exact Hb.
Qed.

Lemma performAll_config ops : forall m, config (performAll ops m) = config m.
Proof.
  induction ops as [|op ops IH]; intros m; simpl; [reflexivity|].
  now rewrite IH, perform_config.
Qed.

Lemma performAll_invariant ops :
  forall m, wellFormed m -> (1 <= maxHistory (config m))%Q -> bounded m ->
            wellFormed (performAll ops m) /\ bounded (performAll ops m).
Proof.
  induction ops as [|op ops IH]; intros m Hwf Hmax Hb; simpl; [now split|].
  apply IH.
  - now apply perform_wellFormed.
  - now rewrite perform_config.
  - now apply perform_bounded.
Qed.

Lemma performAll_wellFormed ops :
  forall m, wellFormed m -> wellFormed (performAll ops m).
Proof.
  induction ops as [|op ops IH]; intros m Hwf; simpl; [assumption|].
  apply IH. now apply perform_wellFormed.
Qed.

Lemma constructor_wellFormed cfg : wellFormed (constructor cfg).
Proof. unfold wellFormed, len. simpl. lia. Qed.

Lemma constructor_bounded cfg :
  (1 <= maxHistory (config (constructor cfg)))%Q -> bounded (constructor cfg).
Proof.
  intros H. pose proof (ceiling_ge_one _ H). unfold bounded, len.
  change (history (constructor cfg)) with (@nil HistoryItem). simpl List.length. lia.
Qed.

Lemma trimHistory_pendingSave m : pendingSave (trimHistory m) = pendingSave m.
Proof. trim_cases m; reflexivity. Qed.

Lemma notifications_app a b : notifications (a ++ b) = (notifications a ++ notifications b)%list.
Proof. unfold notifications. apply flat_map_app. Qed.

Lemma rendered_app a b : rendered (a ++ b) = (rendered a ++ rendered b)%list.
Proof. unfold rendered. apply flat_map_app. Qed.

Lemma restoreCaret_quiet host item :
  notifications (restoreCaret host item) = [] /\ rendered (restoreCaret host item) = [].
Proof.
  unfold restoreCaret.
  destruct (caretBlockIndex item), (caretOffset item); try (split; reflexivity).
  destruct (holderElement host) as [contents|]; try (split; reflexivity).
  destruct (at_ contents z) as [blockContent|]; try (split; reflexivity).
  destruct (firstChild blockContent) as [textContent|]; try (split; reflexivity).
  destruct (windowSelection host); split; reflexivity.
Qed.

Lemma restore_quiet host item :
  notifications (fst (restore host item)) = [].
Proof.
  unfold restore. destruct item as [item|]; [|reflexivity].
  destruct (renderResolves host); [|reflexivity].
  simpl. apply restoreCaret_quiet.
Qed.

Lemma restore_rendered host item :
  renderResolves host = true ->
  restore host (Some item) = (EditorRender (blocks item) :: restoreCaret host item, Returned).
Proof. intros H. unfold restore. now rewrite H, cloneBlocks_copy. Qed.

Lemma undo_notifies host m :
  canUndo m = true -> completion (undo host m) = Returned ->
  notifications (effects (undo host m)) = [getState (after (undo host m))].
Proof.
  unfold undo. intros -> . simpl.
  pose proof (restore_quiet host (at_ (history m) (position m - 1))) as Hq.
  destruct (restore host _) as [done []]; simpl in *; [|discriminate].
  intros _. now rewrite notifications_app, Hq.
Qed.

Lemma redo_notifies host m :
  canRedo m = true -> completion (redo host m) = Returned ->
  notifications (effects (redo host m)) = [getState (after (redo host m))].
Proof.
  unfold redo. intros -> . simpl.
  pose proof (restore_quiet host (at_ (history m) (position m + 1))) as Hq.
  destruct (restore host _) as [done []]; simpl in *; [|discriminate].
  intros _. now rewrite notifications_app, Hq.
Qed.

Lemma at_in_range {A} (l : list A) i :
  0 <= i < len l -> exists x, at_ l i = Some x.
Proof.
  intros H. unfold at_. destruct (Z.ltb_spec i 0); [lia|].
  destruct (nth_error l (Z.to_nat i)) eqn:E; [eauto|].
  apply nth_error_None in E. unfold len in H. lia.
Qed.

Lemma undo_redo host host' m :
  wellFormed m -> canUndo m = true ->
  renderResolves host = true -> renderResolves host' = true ->
  exists item,
    at_ (history m) (position m) = Some item /\
    completion (undo host m) = Returned /\
    completion (redo host' (after (undo host m))) = Returned /\
    after (redo host' (after (undo host m))) = m /\
    rendered (effects (redo host' (after (undo host m)))) = [blocks item].
Proof.
  intros [Hlo Hhi] Hu Hr Hr'. pose proof Hu as Hpos. unfold canUndo in Hpos.
  apply Z.ltb_lt in Hpos.
  destruct (at_in_range (history m) (position m)) as [item Hitem]; [lia|].
  destruct (at_in_range (history m) (position m - 1)) as [prev Hprev]; [lia|].
  exists item. split; [exact Hitem|].
  unfold undo. rewrite Hu. simpl. rewrite Hprev, restore_rendered by exact Hr. simpl.
  split; [reflexivity|].
  unfold redo, canRedo. simpl.
  replace (0 <=? position m - 1) with true by (symmetry; apply Z.leb_le; lia).
  replace (position m - 1 <? len (history m) - 1) with true by (symmetry; apply Z.ltb_lt; lia).
  simpl. replace (position m - 1 + 1) with (position m) by lia.
  rewrite Hitem, restore_rendered by exact Hr'. simpl.
  split; [reflexivity|]. split.
  - replace (position m - 1 + 1) with (position m) by lia. destruct m; reflexivity.
  - rewrite rendered_app. destruct (restoreCaret_quiet host' item) as [_ ->]. reflexivity.
Qed.

End ManagerFacts.


(* ================================================================= *)
(** ** The shortcut matcher *)

Module ShortcutFacts.

Lemma pop_snoc {A} (l : list A) (x : A) : pop (l ++ [x]) = Some (l, x).
Proof.
  induction l as [|y l IH]; simpl; [reflexivity|].
  rewrite IH. destruct (l ++ [x])%list eqn:E; [|reflexivity].
  destruct l; discriminate.
Qed.

Lemma pop_spec {A} (l : list A) :
  match pop l with
  | Some (init, last) => l = (init ++ [last])%list
  | None => l = []
  end.
Proof.
  induction l as [|y l IH]; simpl; [reflexivity|].
  destruct l as [|z l]; [reflexivity|].
  destruct (pop (z :: l)) as [[init last]|]; [|discriminate].
  simpl. now rewrite IH.
Qed.

Lemma exact_modifiers event modifiers :
  ((forall modifier, requires modifiers modifier = true -> pressed event modifier = true) /\
   (forall modifier, requires modifiers modifier = false -> pressed event modifier = false)) <->
  (ctrlKey event = requires modifiers Ctrl /\ metaKey event = requires modifiers Meta /\
   altKey event = requires modifiers Alt /\ shiftKey event = requires modifiers Shift).
Proof.
  split.
  - intros [Hreq Hnot]. repeat split.
    + destruct (requires modifiers Ctrl) eqn:E; [apply (Hreq Ctrl E) | apply (Hnot Ctrl E)].
    + destruct (requires modifiers Meta) eqn:E; [apply (Hreq Meta E) | apply (Hnot Meta E)].
    + destruct (requires modifiers Alt) eqn:E; [apply (Hreq Alt E) | apply (Hnot Alt E)].
    + destruct (requires modifiers Shift) eqn:E; [apply (Hreq Shift E) | apply (Hnot Shift E)].
  - intros (Hc & Hm & Ha & Hs). split; intros [] E; simpl; congruence.
Qed.

Lemma matchesShortcut_unfold event shortcut :
  matchesShortcut event shortcut =
  match pop (tokens shortcut) with
  | None => false
  | Some (modifiers, key_) =>
      negb (String.eqb key_ EmptyString) &&
      Bool.eqb (ctrlKey event) (requires modifiers Ctrl) &&
      Bool.eqb (metaKey event) (requires modifiers Meta) &&
      Bool.eqb (altKey event) (requires modifiers Alt) &&
      Bool.eqb (shiftKey event) (requires modifiers Shift) &&
      String.eqb (toLowerCase (key event)) key_
  end.
Proof.
  unfold matchesShortcut, tokens.
  destruct (pop _) as [[modifiers key_]|]; [|reflexivity].
  unfold requires.
  destruct (String.eqb key_ EmptyString); [reflexivity|].
  destruct (includes modifiers "ctrl" || includes modifiers "control"),
           (includes modifiers "cmd" || includes modifiers "meta"),
           (includes modifiers "alt"), (includes modifiers "shift"),
           (ctrlKey event), (metaKey event), (altKey event), (shiftKey event);
    simpl; try reflexivity; now rewrite ?andb_true_r.
Qed.

Theorem matchesShortcut_exact event shortcut :
  matchesShortcut event shortcut = true <->
  exists modifiers key_,
    tokens shortcut = (modifiers ++ [key_])%list /\
    key_ <> EmptyString /\
    (forall modifier, requires modifiers modifier = true -> pressed event modifier = true) /\
    (forall modifier, requires modifiers modifier = false -> pressed event modifier = false) /\
    toLowerCase (key event) = key_.
Proof.
  rewrite matchesShortcut_unfold. split.
  - pose proof (pop_spec (tokens shortcut)) as Hpop.
    destruct (pop (tokens shortcut)) as [[modifiers key_]|]; [|discriminate].
    intros H. repeat (apply andb_prop in H; destruct H as [H ?]).
    exists modifiers, key_. split; [exact Hpop|]. split.
    + intros ->. discriminate.
    + rewrite <- and_assoc. split.
      * apply exact_modifiers. repeat split; now apply Bool.eqb_prop.
      * now apply String.eqb_eq.
  - intros (modifiers & key_ & Htok & Hkey & Hreq & Hnot & Heq).
    rewrite Htok, pop_snoc.
    destruct (proj1 (exact_modifiers event modifiers) (conj Hreq Hnot)) as (-> & -> & -> & ->).
    rewrite !Bool.eqb_reflx. apply String.eqb_eq in Heq. rewrite Heq.
    apply String.eqb_neq in Hkey. now rewrite Hkey.
Qed.

End ShortcutFacts.

(* ================================================================= *)
(** ** The debounce coalescer *)

Module CoalescerFacts.
Import Coalescer.

Lemma captureEnd_isSaving saved caret m :
  isSaving (after (captureEnd saved caret m)) = false.
Proof.
  unfold captureEnd. destruct saved as [output|]; [|reflexivity].
  destruct (hasChanged m output); reflexivity.
Qed.

Lemma step_serialized e l l' :
  serialized l -> step e l = Some l' -> serialized l'.
Proof.
  intros Hs Hstep. destruct e as [| |i saved caret]; simpl in Hstep.
  - injection Hstep as <-. exact Hs.
  - destruct (timeout l) as [call|]; [|discriminate]. injection Hstep as <-.
    unfold timerCallback. destruct Hs as [(Hb & r & Hr)|(Hb & Hr)]; rewrite Hb; simpl.
    + left. split; [exact Hb | eauto].
    + left. split; [reflexivity|]. rewrite Hr. simpl. eauto.
  - destruct (nth_error (suspended l) i) as [[call stage]|] eqn:E; [|discriminate].
    injection Hstep as <-.
    destruct Hs as [(Hb & r & Hr)|(Hb & Hr)]; [|rewrite Hr in E; destruct i; discriminate].
    rewrite Hr in E. destruct i as [|i]; [|destruct i; discriminate].
    unfold resume. pose proof (captureEnd_isSaving saved caret (manager l)) as Hend.
    destruct (completion (captureEnd saved caret (manager l))), stage; simpl;
      try (right; split; [exact Hend | now rewrite Hr]).
    destruct (pendingSave (after (captureEnd saved caret (manager l)))); simpl.
    + left. split; [reflexivity|]. rewrite Hr. eexists. reflexivity.
    + right. split; [exact Hend | now rewrite Hr].
Qed.

Lemma run_serialized events : forall l, serialized l -> serialized (run events l).
Proof.
  induction events as [|e events IH]; intros l Hs; simpl; [exact Hs|].
  destruct (step e l) as [l'|] eqn:E; apply IH; [eapply step_serialized; eauto | exact Hs].
Qed.

Lemma start_serialized m : isSaving m = false -> serialized (start m).
Proof. intros H. right. now split. Qed.

(** No concurrent capture: at most one [editor.save()] is ever awaited. *)
Lemma one_capture_at_a_time m events :
  isSaving m = false -> (List.length (suspended (run events (start m))) <= 1)%nat.
Proof.
  intros H. destruct (run_serialized events _ (start_serialized m H)) as [(_ & r & ->)|(_ & ->)];
    simpl; lia.
Qed.

(** A timer that fires during a capture starts no capture: it sets
    [pendingSave] and its call resolves on the spot. *)
Lemma timer_during_capture call l :
  timeout l = Some call -> isSaving (manager l) = true ->
  exists l', step TimerFires l = Some l' /\
    pendingSave (manager l') = true /\
    suspended l' = suspended l /\
    trace l' = (trace l ++ [Resolved call])%list.
Proof.
  intros Ht Hs. simpl. rewrite Ht. eexists. split; [reflexivity|].
  unfold timerCallback. rewrite Hs. simpl. repeat split.
Qed.

(** When the first capture of a run completes with [pendingSave] set, the
    run starts exactly one more capture and clears the flag. *)
Lemma first_capture_chains call output caret l :
  suspended l = [(call, FirstCapture)] -> pendingSave (manager l) = true ->
  exists l', step (SaveSettles 0 (Some output) caret) l = Some l' /\
    suspended l' = [(call, ChainedCapture)] /\
    pendingSave (manager l') = false /\
    isSaving (manager l') = true /\
    saveCalls (trace l') = S (saveCalls (trace l)).
Proof.
  intros Hs Hp. simpl. rewrite Hs. simpl. eexists. split; [reflexivity|].
  unfold resume, captureEnd.
  destruct (hasChanged (manager l) output); simpl.
  - rewrite ManagerFacts.trimHistory_pendingSave, Hp, Hs. simpl. repeat split.
    unfold saveCalls. rewrite !filter_app, !length_app. simpl. lia.
  - rewrite Hp, Hs. simpl. repeat split.
    unfold saveCalls. rewrite !filter_app, !length_app. simpl. lia.
Qed.

(** When the chained capture of a run completes, [pendingSave] is not
    looked at again: no capture is started and the flag stays as it is. *)
Lemma chained_capture_ends_run call output caret l :
  suspended l = [(call, ChainedCapture)] ->
  exists l', step (SaveSettles 0 (Some output) caret) l = Some l' /\
    suspended l' = [] /\
    pendingSave (manager l') = pendingSave (manager l) /\
    isSaving (manager l') = false /\
    saveCalls (trace l') = saveCalls (trace l).
Proof.
  intros Hs. simpl. rewrite Hs. simpl. eexists. split; [reflexivity|].
  unfold resume, captureEnd.
  destruct (hasChanged (manager l) output); simpl.
  - rewrite ManagerFacts.trimHistory_pendingSave, Hs. simpl. repeat split.
    unfold saveCalls. rewrite !filter_app, !length_app. simpl. lia.
  - rewrite Hs. simpl. repeat split.
    unfold saveCalls. rewrite !filter_app, !length_app. simpl. lia.
Qed.

Lemma isResolved_app call t t' :
  isResolved call (t ++ t') = isResolved call t || isResolved call t'.
Proof. unfold isResolved. apply existsb_app. Qed.

Lemma isResolved_hostCalls call done : isResolved call (map HostCall done) = false.
Proof. induction done as [|e done IH]; simpl; [reflexivity | exact IH]. Qed.

Lemma in_removeAt {A} (x : A) i l : In x (removeAt i l) -> In x l.
Proof.
  unfold removeAt. intros H. apply in_app_or in H.
  rewrite <- (firstn_skipn i l). apply in_or_app.
  destruct H as [H|H]; [now left | right].
  rewrite <- (firstn_skipn 1 (skipn i l)), skipn_skipn. apply in_or_app. now right.
Qed.

Lemma in_fst_replaceAt (call : nat) i (c : nat) (stage stage' : Stage) l :
  nth_error l i = Some (c, stage) ->
  In call (map fst (replaceAt i (c, stage') l)) -> In call (map fst l).
Proof.
  intros Hnth H. unfold replaceAt in H. rewrite map_app in H. simpl in H.
  apply in_app_or in H. apply in_map_iff.
  destruct H as [H|[H|H]].
  - apply in_map_iff in H. destruct H as (x & Hx & Hin). exists x. split; [exact Hx|].
    rewrite <- (firstn_skipn i l). apply in_or_app. now left.
  - exists (c, stage). split; [exact H|]. eapply nth_error_In; eauto.
  - apply in_map_iff in H. destruct H as (x & Hx & Hin). exists x. split; [exact Hx|].
    apply (in_removeAt x i l). unfold removeAt. apply in_or_app. now right.
Qed.

Lemma step_abandoned call e l l' :
  abandoned call l -> step e l = Some l' -> abandoned call l'.
Proof.
  intros (Ht & Hs & Hc & Hr) Hstep. destruct e as [| |i saved caret]; simpl in Hstep.
  - injection Hstep as <-. unfold abandoned; simpl. repeat split.
    + intros E. injection E as E. lia.
    + exact Hs.
    + lia.
    + rewrite isResolved_app, Hr. reflexivity.
  - destruct (timeout l) as [c|] eqn:E; [|discriminate]. injection Hstep as <-.
    assert (Hne : c <> call) by congruence.
    unfold timerCallback. destruct (isSaving (manager l)); unfold abandoned; simpl.
    + repeat split; try assumption; try discriminate.
      rewrite isResolved_app, Hr. simpl. rewrite orb_false_r. now apply Nat.eqb_neq.
    + repeat split; try assumption; try discriminate.
      * rewrite map_app. intros H. apply in_app_or in H. simpl in H. tauto.
      * rewrite isResolved_app, Hr. reflexivity.
  - destruct (nth_error (suspended l) i) as [[c stage]|] eqn:E; [|discriminate].
    injection Hstep as <-.
    assert (Hne : c <> call).
    { intros ->. apply Hs. apply in_map_iff. exists (call, stage). split; [reflexivity|].
      eapply nth_error_In; eauto. }
    assert (Hrm : ~ In call (map fst (removeAt i (suspended l)))).
    { intros H. apply Hs. apply in_map_iff in H. destruct H as (x & Hx & Hin).
      apply in_map_iff. exists x. split; [exact Hx | eapply in_removeAt; eauto]. }
    assert (Hrp : ~ In call (map fst (replaceAt i (c, ChainedCapture) (suspended l)))).
    { intros H. apply Hs. eapply in_fst_replaceAt; eauto. }
    assert (Hres : forall done,
               isResolved call ((trace l ++ map HostCall done) ++ [Resolved c]) = false).
    { intros done. rewrite !isResolved_app, Hr, isResolved_hostCalls. simpl.
      rewrite orb_false_r. now apply Nat.eqb_neq. }
    assert (Hseen : forall done, isResolved call (trace l ++ map HostCall done) = false).
    { intros done. now rewrite isResolved_app, Hr, isResolved_hostCalls. }
    unfold resume.
    destruct (completion (captureEnd saved caret (manager l))), stage;
      try (unfold abandoned; simpl; repeat split; now auto).
    destruct (pendingSave (after (captureEnd saved caret (manager l))));
      unfold abandoned; simpl; repeat split; auto.
    rewrite isResolved_app, Hseen. reflexivity.
Qed.

Lemma run_abandoned call events : forall l, abandoned call l -> abandoned call (run events l).
Proof.
  induction events as [|e events IH]; intros l H; simpl; [exact H|].
  destruct (step e l) as [l'|] eqn:E; apply IH; [eapply step_abandoned; eauto | exact H].
Qed.

Lemma superseded_abandoned l :
  abandoned (calls l) (handleEditorChange (handleEditorChange l)) \/
  In (calls l) (map fst (suspended l)) \/ isResolved (calls l) (trace l) = true.
Proof.
  destruct (in_dec Nat.eq_dec (calls l) (map fst (suspended l))) as [Hin|Hin]; [tauto|].
  destruct (isResolved (calls l) (trace l)) eqn:Hr; [tauto|].
  left. unfold abandoned; simpl. repeat split.
  - intros E. injection E as E. lia.
  - exact Hin.
  - lia.
  - now rewrite !isResolved_app, Hr.
Qed.

Lemma idle_stuck events : forall l, idle l = true -> noNewCall events = true -> run events l = l.
Proof.
  induction events as [|e events IH]; intros l Hi Hn; simpl; [reflexivity|].
  unfold idle in Hi.
  destruct (timeout l) eqn:Ht; [discriminate|].
  destruct (suspended l) eqn:Hs; [|discriminate].
  destruct e as [| |i saved caret]; simpl in *; [discriminate| |].
  - rewrite Ht. apply IH; [unfold idle; now rewrite Ht, Hs | exact Hn].
  - rewrite Hs. destruct i; simpl; (apply IH; [unfold idle; now rewrite Ht, Hs | exact Hn]).
Qed.

End CoalescerFacts.


(* ================================================================= *)
(** ** The claims *)

Import ManagerFacts ShortcutFacts CoalescerFacts Coalescer.

(** C1.  After any sequence of operations, from any manager, a capture that
    appends a snapshot (the content has changed) leaves the cursor on the
    last entry, [position = length - 1], that entry being the new snapshot,
    and [canRedo()] returns false. *)
Theorem C1_push_leaves_nothing_to_redo m0 ops output caret :
  let m := performAll ops m0 in
  hasChanged m output = true ->
  let m' := after (captureSnapshot (Some output) caret m) in
  position m' = len (history m') - 1 /\
  at_ (history m') (position m') = Some (snapshot output caret) /\
  canRedo m' = false.
Proof.
  intros m H m'. destruct (push_at_tail output caret m H) as [Hp Hr].
  fold m' in Hp, Hr. repeat split; try assumption.
  subst m'. rewrite captureSnapshot_after, captureEnd_push by exact H. simpl.
  apply at_last.
Qed.

Lemma C1_witness :
  let m' := after (captureSnapshot (Some Sample.second) Sample.caret
                     (performAll [Initialize (DataArray Sample.first)]
                        (constructor (Sample.cfg 100)))) in
  position m' = len (history m') - 1 /\
  at_ (history m') (position m') = Some (snapshot Sample.second Sample.caret) /\
  canRedo m' = false.
Proof.
  apply (C1_push_leaves_nothing_to_redo (constructor (Sample.cfg 100))
           [Initialize (DataArray Sample.first)] Sample.second Sample.caret).
  vm_compute. reflexivity.
Defined.

(** C2 as stated fails for a [maxHistory] that is not an integer.  With
    [maxHistory] 1.5, [initialize] leaves one entry; at the next capture of
    changed content [trimHistory] finds [1 >= 1.5] false and removes
    nothing, so the push leaves two entries, more than [maxHistory]. *)
Lemma C2_counterexample :
  let m := performAll [Initialize (DataArray Sample.first);
                       CaptureSnapshot (Some Sample.second) Sample.caret]
             (constructor Sample.fractional) in
  (1 <= maxHistory (config m))%Q /\
  len (history m) = 2 /\
  ~ (inject_Z (len (history m)) <= maxHistory (config m))%Q.
Proof.
  vm_compute. split; [discriminate|]. split; [reflexivity|]. intros H. now apply H.
Qed.

(** C2, amended.  With [maxHistory >= 1], after any sequence of operations
    the history holds at most [maxHistory] rounded up to an integer entries,
    hence at most [maxHistory] entries when [maxHistory] is an integer; and
    a push keeps the newest that many of the entries up to the cursor
    followed by the new snapshot (the oldest are dropped), with the new
    snapshot current at [position = length - 1]. *)
Theorem C2_history_bounded cfg ops :
  (1 <= maxHistory (config (constructor cfg)))%Q ->
  let m := performAll ops (constructor cfg) in
  let limit := Qceiling (maxHistory (config m)) in
  len (history m) <= limit /\
  (forall k, (maxHistory (config m) == inject_Z k)%Q -> len (history m) <= k) /\
  forall output caret,
    hasChanged m output = true ->
    let pushed := (kept m ++ [snapshot output caret])%list in
    let m' := after (captureSnapshot (Some output) caret m) in
    history m' = skipn (List.length pushed - Z.to_nat limit) pushed /\
    len (history m') <= limit /\
    (forall k, (maxHistory (config m) == inject_Z k)%Q -> len (history m') <= k) /\
    position m' = len (history m') - 1 /\
    at_ (history m') (position m') = Some (snapshot output caret).
Proof.
  intros Hmax m limit.
  assert (Hc : config m = config (constructor cfg)) by apply performAll_config.
  destruct (performAll_invariant ops (constructor cfg)) as [Hwf Hb];
    [apply constructor_wellFormed | exact Hmax | now apply constructor_bounded |].
  fold m in Hwf, Hb. unfold bounded in Hb. fold limit in Hb.
  assert (Hint : forall k, (maxHistory (config m) == inject_Z k)%Q -> limit = k).
  { intros k Hk. subst limit. rewrite Hk. apply Qceiling_Z. }
  split; [exact Hb|]. split.
  { intros k Hk. now rewrite <- (Hint k Hk). }
  intros output caret H pushed m'.
  assert (Hmax' : (1 <= maxHistory (config m))%Q) by now rewrite Hc.
  pose proof (perform_bounded (CaptureSnapshot (Some output) caret) m Hwf Hmax' Hb) as Hb'.
  unfold bounded in Hb'. rewrite perform_config in Hb'. cbn [perform] in Hb'.
  fold m' limit in Hb'.
  destruct (push_at_tail output caret m H) as [Hp _].
  split; [now apply push_history|]. split; [exact Hb'|]. split.
  { intros k Hk. now rewrite <- (Hint k Hk). }
  split; [exact Hp|].
  subst m'. rewrite captureSnapshot_after, captureEnd_push by exact H. simpl. apply at_last.
Qed.

Lemma C2_witness :
  let m := performAll [Initialize (DataArray Sample.first);
                       CaptureSnapshot (Some Sample.second) Sample.caret]
             (constructor (Sample.cfg 2)) in
  len (history m) <= 2 /\
  history (after (captureSnapshot (Some Sample.third) Sample.caret m)) =
  [snapshot Sample.second Sample.caret; snapshot Sample.third Sample.caret].
Proof.
  intros m.
  assert (H : (1 <= maxHistory (config (constructor (Sample.cfg 2))))%Q)
    by (unfold Qle; simpl; lia).
  destruct (C2_history_bounded (Sample.cfg 2)
              [Initialize (DataArray Sample.first);
               CaptureSnapshot (Some Sample.second) Sample.caret] H) as (_ & Hint & Hpush).
  split; [apply Hint; reflexivity|].
  assert (Hch : hasChanged m Sample.third = true) by (vm_compute; reflexivity).
  destruct (Hpush Sample.third Sample.caret Hch) as [Hh _].
  fold m in Hh. rewrite Hh. vm_compute. reflexivity.
Defined.

(** C3.  After any sequence of operations, a push made while the cursor is
    before the tail first discards every entry behind the cursor: what is
    left before the append is a suffix of the entries at indices
    [0 .. position] (all of them when the bound leaves room), and the new
    snapshot is appended to that. *)
Theorem C3_push_discards_redo_branch cfg ops output caret :
  let m := performAll ops (constructor cfg) in
  position m < len (history m) - 1 ->
  hasChanged m output = true ->
  exists dropped,
    history (trimHistory m) = skipn dropped (firstn (Z.to_nat (position m + 1)) (history m)) /\
    ((inject_Z (position m + 1) < maxHistory (config m))%Q -> dropped = 0%nat) /\
    history (after (captureSnapshot (Some output) caret m)) =
    (history (trimHistory m) ++ [snapshot output caret])%list.
Proof.
  intros m Hpos H.
  assert (Hwf : wellFormed m) by (apply performAll_wellFormed, constructor_wellFormed).
  pose proof (trimHistory_history m Hwf) as Ht. fold (kept m).
  assert (Hk : len (kept m) = position m + 1).
  { unfold kept. apply len_firstn. unfold wellFormed in Hwf. lia. }
  destruct (Qle_bool (maxHistory (config m)) (inject_Z (len (kept m)))) eqn:E.
  - eexists. split; [exact Ht|]. split.
    { intros Hlt. apply Qle_bool_iff in E. rewrite Hk in E.
      exfalso. exact (Qlt_not_le _ _ Hlt E). }
    rewrite captureSnapshot_after, captureEnd_push by exact H. simpl.
    now rewrite trimHistory_withIsSaving.
  - exists 0%nat. split; [exact Ht|]. split; [reflexivity|].
    rewrite captureSnapshot_after, captureEnd_push by exact H. simpl.
    now rewrite trimHistory_withIsSaving.
Qed.

Lemma C3_witness :
  let m := performAll [Initialize (DataArray Sample.first);
                       CaptureSnapshot (Some Sample.second) Sample.caret;
                       Undo Sample.host]
             (constructor (Sample.cfg 100)) in
  exists dropped,
    history (trimHistory m) = skipn dropped (firstn (Z.to_nat (position m + 1)) (history m)) /\
    ((inject_Z (position m + 1) < maxHistory (config m))%Q -> dropped = 0%nat) /\
    history (after (captureSnapshot (Some Sample.third) Sample.caret m)) =
    (history (trimHistory m) ++ [snapshot Sample.third Sample.caret])%list.
Proof.
  apply (C3_push_discards_redo_branch (Sample.cfg 100)
           [Initialize (DataArray Sample.first);
            CaptureSnapshot (Some Sample.second) Sample.caret;
            Undo Sample.host] Sample.third Sample.caret).
  - vm_compute. reflexivity.
  - vm_compute. reflexivity.
Defined.

(** C4 as stated fails on the code in two ways.  With an empty history and
    an empty candidate [hasChanged] returns false, where the claim makes it
    true; and a candidate that differs from the current snapshot only in the
    order of a block's keys makes [hasChanged] return true, where the claim
    makes it false. *)
Lemma C4_counterexample :
  (history (constructor (Sample.cfg 100)) = [] /\
   hasChanged (constructor (Sample.cfg 100)) [] = false /\
   hasChanged_spec (constructor (Sample.cfg 100)) [] = true) /\
  (let m := after (initialize (DataArray Sample.first) (constructor (Sample.cfg 100))) in
   let reordered := [JObj [("type"%string, JStr "paragraph"); ("id"%string, JStr "1");
                           ("data"%string, JObj [("text"%string, JStr "First")])]] in
   currentBlocks m = Sample.first /\
   structurallyEqual (JArr Sample.first) (JArr reordered) = true /\
   hasChanged m reordered = true /\
   hasChanged_spec m reordered = false).
Proof. vm_compute. repeat split. Qed.

(** C4, amended.  [hasChanged(candidate)] returns true if and only if the
    candidate differs, as JSON data with the members of every object in
    order, from the content of the snapshot at the current position, or
    from the empty block list when there is no current snapshot. *)
Theorem C4_hasChanged_compares_ordered_json m candidate :
  hasChanged m candidate = true <-> candidate <> currentBlocks m.
Proof.
  unfold hasChanged. fold (currentBlocks m). rewrite negb_true_iff, String.eqb_neq. split.
  - intros H ->. now apply H.
  - intros H E. apply JSONFacts.stringify_inj in E. injection E as E. now apply H.
Qed.

Lemma C4_witness :
  hasChanged (after (initialize (DataArray Sample.first) (constructor (Sample.cfg 100))))
    Sample.second = true.
Proof.
  apply (proj2 (C4_hasChanged_compares_ordered_json
                  (after (initialize (DataArray Sample.first) (constructor (Sample.cfg 100))))
                  Sample.second)).
  vm_compute. discriminate.
Defined.

(** C8.  [undo()] with nothing to undo and [redo()] with nothing to redo
    return normally, leave the manager as it was and call nothing; an
    [undo()] or [redo()] that completes calls the observer exactly once,
    with the state it has left. *)
Theorem C8_navigation_notifies_once host m :
  (canUndo m = false -> undo host m = unchanged m) /\
  (canRedo m = false -> redo host m = unchanged m) /\
  (canUndo m = true -> completion (undo host m) = Returned ->
   notifications (effects (undo host m)) = [getState (after (undo host m))]) /\
  (canRedo m = true -> completion (redo host m) = Returned ->
   notifications (effects (redo host m)) = [getState (after (redo host m))]).
Proof.
  repeat split.
  - intros H. unfold undo. now rewrite H.
  - intros H. unfold redo. now rewrite H.
  - apply undo_notifies.
  - apply redo_notifies.
Qed.

Lemma C8_witness :
  let m1 := after (initialize (DataArray Sample.first) (constructor (Sample.cfg 100))) in
  let m2 := after (captureSnapshot (Some Sample.second) Sample.caret m1) in
  let m3 := after (undo Sample.host m2) in
  undo Sample.host m1 = unchanged m1 /\
  redo Sample.host m1 = unchanged m1 /\
  notifications (effects (undo Sample.host m2)) = [getState m3] /\
  notifications (effects (redo Sample.host m3)) = [getState (after (redo Sample.host m3))].
Proof.
  intros m1 m2 m3.
  destruct (C8_navigation_notifies_once Sample.host m1) as (Hu & Hr & _ & _).
  destruct (C8_navigation_notifies_once Sample.host m2) as (_ & _ & Hu2 & _).
  destruct (C8_navigation_notifies_once Sample.host m3) as (_ & _ & _ & Hr3).
  split; [|split; [|split]].
  - apply Hu. vm_compute. reflexivity.
  - apply Hr. vm_compute. reflexivity.
  - apply Hu2; vm_compute; reflexivity.
  - apply Hr3; vm_compute; reflexivity.
Defined.

(** C9.  After any sequence of settled operations that leaves something to
    undo, [undo()] followed by [redo()] (the host rendering both times)
    brings the manager, hence [getState()], back to what it was, and the
    content the redo hands to [editor.render] is the content of the
    snapshot that was current before the undo. *)
Theorem C9_undo_then_redo cfg ops host host' :
  let m := performAll ops (constructor cfg) in
  canUndo m = true ->
  renderResolves host = true -> renderResolves host' = true ->
  exists item,
    at_ (history m) (position m) = Some item /\
    completion (undo host m) = Returned /\
    completion (redo host' (after (undo host m))) = Returned /\
    after (redo host' (after (undo host m))) = m /\
    getState (after (redo host' (after (undo host m)))) = getState m /\
    rendered (effects (redo host' (after (undo host m)))) = [blocks item].
Proof.
  intros m Hu Hr Hr'.
  assert (Hwf : wellFormed m) by (apply performAll_wellFormed, constructor_wellFormed).
  destruct (undo_redo host host' m Hwf Hu Hr Hr') as (item & Hi & Hcu & Hcr & Hm & Hrd).
  exists item. repeat split; try assumption. now rewrite Hm.
Qed.

Lemma C9_witness :
  let m := performAll [Initialize (DataArray Sample.first);
                       CaptureSnapshot (Some Sample.second) Sample.caret]
             (constructor (Sample.cfg 100)) in
  exists item,
    at_ (history m) (position m) = Some item /\
    completion (undo Sample.host m) = Returned /\
    completion (redo Sample.host (after (undo Sample.host m))) = Returned /\
    after (redo Sample.host (after (undo Sample.host m))) = m /\
    getState (after (redo Sample.host (after (undo Sample.host m)))) = getState m /\
    rendered (effects (redo Sample.host (after (undo Sample.host m)))) = [blocks item].
Proof.
  apply (C9_undo_then_redo (Sample.cfg 100)
           [Initialize (DataArray Sample.first);
            CaptureSnapshot (Some Sample.second) Sample.caret] Sample.host Sample.host);
    vm_compute; reflexivity.
Defined.

(** C10.  Whatever the data and the manager, [initialize(data)] calls the
    observer exactly once and makes no other host call; the state it passes
    is [{position: 0, count: 1, canUndo: false, canRedo: false}]. *)
Theorem C10_initialize_notifies_once data m :
  effects (initialize data m) =
  [OnUpdate {| UndoState.position := 0; UndoState.count := 1;
               UndoState.canUndo := false; UndoState.canRedo := false |}].
Proof. reflexivity. Qed.

(** C7 as stated fails where the definition's last token is empty: a key
    event with an empty [key] and no modifier pressed satisfies the stated
    rule for the empty definition, and [matchesShortcut] returns false. *)
Lemma C7_counterexample :
  matches_spec (Sample.keydown EmptyString false false) (Combination EmptyString) /\
  matchesShortcut (Sample.keydown EmptyString false false) (Combination EmptyString) = false.
Proof.
  split; [|reflexivity].
  exists [], EmptyString. repeat split; intros []; simpl; congruence.
Qed.

(** C7, amended.  A shortcut matches if and only if its last token, trimmed
    and lower-cased, is not empty, every modifier the tokens before it
    require is pressed, every modifier of ctrl, meta, alt, shift they do
    not require is not pressed, and the event's key lower-cased is that
    last token.  So no event with Ctrl and Shift pressed matches ["CTRL+Z"]. *)
Theorem C7_shortcut_matches_exactly event shortcut :
  (matchesShortcut event shortcut = true <->
   exists modifiers key_,
     tokens shortcut = (modifiers ++ [key_])%list /\
     key_ <> EmptyString /\
     (forall modifier, requires modifiers modifier = true -> pressed event modifier = true) /\
     (forall modifier, requires modifiers modifier = false -> pressed event modifier = false) /\
     toLowerCase (key event) = key_) /\
  (ctrlKey event = true -> shiftKey event = true ->
   matchesShortcut event (Combination "CTRL+Z") = false).
Proof.
  split; [apply matchesShortcut_exact|].
  intros Hc Hs. rewrite matchesShortcut_unfold. simpl. rewrite Hc, Hs. simpl.
  now rewrite !andb_false_r.
Qed.

Lemma C7_witness :
  matchesShortcut (Sample.keydown "Z" true false) (Combination "CTRL+Z") = true /\
  matchesShortcut (Sample.keydown "Z" true true) (Combination "CTRL+Z") = false.
Proof.
  destruct (C7_shortcut_matches_exactly (Sample.keydown "Z" true false) (Combination "CTRL+Z"))
    as [[_ Hmatch] _].
  destruct (C7_shortcut_matches_exactly (Sample.keydown "Z" true true) (Combination "CTRL+Z"))
    as [_ Hnot].
  split.
  - apply Hmatch. exists ["ctrl"%string], "z"%string.
    split; [reflexivity|]. split; [discriminate|].
    split; [|split]; [intros []; simpl; congruence ..| reflexivity].
  - apply Hnot; reflexivity.
Defined.

(** C5 on the code.  The first call's timer fires and its capture starts; a
    second call's timer fires during that capture, and when the capture
    completes one more is started; a third call's timer fires during this
    chained capture.  When the chained capture completes nothing more is
    started: the loop is idle with [pendingSave] still set, [editor.save()]
    has been called twice, both times before the third request, and as long
    as no new call comes it is never called again. *)
Theorem C5_request_during_chained_capture_is_dropped :
  let schedule :=
    [HandleEditorChange; TimerFires;
     HandleEditorChange; TimerFires;
     SaveSettles 0 (Some Sample.second) Sample.caret;
     HandleEditorChange; TimerFires;
     SaveSettles 0 (Some Sample.third) Sample.caret] in
  let l := run schedule
             (start (after (initialize (DataArray Sample.first)
                              (constructor (Sample.cfg 100))))) in
  idle l = true /\
  pendingSave (manager l) = true /\
  isSaving (manager l) = false /\
  requestsAndSaves (trace l) =
    [Requested 0; HostCall EditorSave; Requested 1; HostCall EditorSave; Requested 2] /\
  forall events, noNewCall events = true -> run events l = l.
Proof.
  intros schedule l.
  assert (Hidle : idle l = true) by (vm_compute; reflexivity).
  split; [exact Hidle|].
  split; [vm_compute; reflexivity|].
  split; [vm_compute; reflexivity|].
  split; [vm_compute; reflexivity|].
  intros events Hn. now apply idle_stuck.
Qed.

(** C6 on the code.  When [handleEditorChange()] is called twice before the
    first call's timer fires, the promise of the first call never resolves,
    whatever happens afterwards, while the second call's does once its
    capture has completed.  And a call whose timer fires during a capture
    resolves on the spot, while that capture is still waiting for
    [editor.save()] and the capture it asked for has not started. *)
Theorem C6_superseded_call_never_resolves m events :
  isResolved 0 (trace (run events (run [HandleEditorChange; HandleEditorChange] (start m))))
  = false /\
  (let l := run [HandleEditorChange; HandleEditorChange; TimerFires;
                 SaveSettles 0 (Some Sample.second) Sample.caret]
              (start (after (initialize (DataArray Sample.first)
                               (constructor (Sample.cfg 100))))) in
   isResolved 1 (trace l) = true /\ idle l = true) /\
  (let l := run [HandleEditorChange; TimerFires; HandleEditorChange; TimerFires]
              (start (after (initialize (DataArray Sample.first)
                               (constructor (Sample.cfg 100))))) in
   isResolved 1 (trace l) = true /\
   suspended l = [(0%nat, FirstCapture)] /\
   pendingSave (manager l) = true /\
   saveCalls (trace l) = 1%nat).
Proof.
  split; [|split; vm_compute; repeat split].
  apply run_abandoned. simpl.
  destruct (superseded_abandoned (start m)) as [H|[H|H]];
    [exact H | destruct H | discriminate H].
Qed.

(* ================================================================= *)
(** ** More of the manager: captures, navigation, carets *)

Module MoreManagerFacts.
Import ManagerFacts.

Lemma withIsSaving_settled m : isSaving m = false -> withIsSaving false (withIsSaving true m) = m.
Proof. destruct m; simpl; intros ->; reflexivity. Qed.

Lemma captureSnapshot_isSaving saved caret m :
  isSaving (after (captureSnapshot saved caret m)) = false.
Proof.
  rewrite captureSnapshot_after. unfold captureEnd.
  destruct saved as [output|]; [|reflexivity].
  destruct (hasChanged (withIsSaving true m) output); reflexivity.
Qed.

Lemma hasChanged_current m output :
  currentBlocks m = output -> hasChanged m output = false.
Proof.
  intros H. unfold hasChanged. fold (currentBlocks m). rewrite H.
  now rewrite String.eqb_refl.
Qed.

(** The manager a push leaves. *)
Lemma push_current output caret m :
  hasChanged m output = true ->
  currentBlocks (after (captureSnapshot (Some output) caret m)) = output.
Proof.
  intros H. rewrite captureSnapshot_after, captureEnd_push by exact H.
  unfold currentBlocks. simpl. now rewrite at_last.
Qed.

Lemma capture_twice output caret caret' m :
  captureSnapshot (Some output) caret' (after (captureSnapshot (Some output) caret m)) =
  {| after := after (captureSnapshot (Some output) caret m);
     effects := [EditorSave];
     completion := Returned |}.
Proof.
  set (m1 := after (captureSnapshot (Some output) caret m)).
  assert (Hs : isSaving m1 = false) by apply captureSnapshot_isSaving.
  assert (Hc : hasChanged m1 output = false).
  { destruct (hasChanged m output) eqn:E.
    - apply hasChanged_current. now apply push_current.
    - subst m1. rewrite captureSnapshot_after.
      change (hasChanged (withIsSaving true m) output) with (hasChanged m output) in *.
      rewrite captureEnd_same by exact E. exact E. }
  unfold captureSnapshot, captureBegin.
  rewrite captureEnd_same by exact Hc. simpl. now rewrite withIsSaving_settled.
Qed.

Lemma initialize_after initialData m :
  after (initialize initialData m) =
  withPosition 0 (withHistory [seed initialData] m).
Proof. unfold initialize, seed. simpl. now rewrite cloneBlocks_copy. Qed.

Lemma incl_skipn {A} (l : list A) n : incl (skipn n l) l.
Proof. intros x H. rewrite <- (firstn_skipn n l). apply in_or_app. now right. Qed.

Lemma incl_firstn {A} (l : list A) n : incl (firstn n l) l.
Proof. intros x H. rewrite <- (firstn_skipn n l). apply in_or_app. now left. Qed.

Lemma incl_splice1 {A} (l : list A) start : incl (splice1 l start) l.
Proof. unfold splice1. apply incl_firstn. Qed.

Lemma incl_splice2 {A} (l : list A) start deleteCount : incl (splice2 l start deleteCount) l.
Proof.
  unfold splice2. intros x H. apply in_app_or in H.
  destruct H as [H|H]; [eapply incl_firstn | eapply incl_skipn]; exact H.
Qed.

(** [trimHistory] only removes entries. *)
Lemma trimHistory_incl m : incl (history (trimHistory m)) (history m).
Proof.
  unfold trimHistory.
  set (m1 := if position m <? len (history m) - 1
             then withHistory (splice1 (history m) (position m + 1)) m
             else m).
  assert (H1 : incl (history m1) (history m)).
  { subst m1. destruct (position m <? len (history m) - 1); simpl;
      [apply incl_splice1 | apply incl_refl]. }
  destruct (Qle_bool (maxHistory (config m1)) (inject_Z (len (history m1)))); simpl;
    [|exact H1].
  eapply incl_tran; [apply incl_splice2 | exact H1].
Qed.

Lemma perform_history op m item :
  In item (history (after (perform op m))) ->
  In item (history m) \/ originates item [op].
Proof.
  destruct op as [data|[output|] caret|host|host]; cbn [perform].
  - rewrite initialize_after. simpl. intros [<-|[]]. right. left.
    exists data. split; [now left | reflexivity].
  - destruct (hasChanged m output) eqn:E.
    + rewrite captureSnapshot_after, captureEnd_push by exact E. simpl.
      intros H. apply in_app_or in H. destruct H as [H|[<-|[]]].
      * left. rewrite trimHistory_withIsSaving in H. simpl in H.
        now apply trimHistory_incl.
      * right. right. exists output, caret. split; [now left | reflexivity].
    + rewrite captureSnapshot_after, captureEnd_same by exact E. simpl. tauto.
  - simpl. tauto.
  - unfold undo. destruct (negb (canUndo m)); [simpl; tauto|].
    destruct (restore host _) as [done []]; simpl; tauto.
  - unfold redo. destruct (negb (canRedo m)); [simpl; tauto|].
    destruct (restore host _) as [done []]; simpl; tauto.
Qed.

Lemma originates_cons item op ops : originates item ops -> originates item (op :: ops).
Proof.
  intros [(d & Hin & ->)|(o & c & Hin & ->)]; [left | right].
  - exists d. split; [now right | reflexivity].
  - exists o, c. split; [now right | reflexivity].
Qed.

Lemma originates_head item op ops : originates item [op] -> originates item (op :: ops).
Proof.
  intros [(d & [->|[]] & ->)|(o & c & [->|[]] & ->)]; [left | right].
  - exists d. split; [now left | reflexivity].
  - exists o, c. split; [now left | reflexivity].
Qed.

Lemma performAll_history ops : forall m item,
  In item (history (performAll ops m)) -> In item (history m) \/ originates item ops.
Proof.
  induction ops as [|op ops IH]; intros m item H; simpl in H; [now left|].
  destruct (IH _ _ H) as [H'|H'].
  - destruct (perform_history op m item H') as [H''|H'']; [now left | right].
    now apply originates_head.
  - right. now apply originates_cons.
Qed.

Lemma getCaretPosition_consistent h stored :
  offset (getCaretPosition h) = Some stored ->
  0 <= stored /\
  exists index text,
    blockIndex (getCaretPosition h) = Some index /\
    getCurrentBlockIndex h = Gives (Some index) /\
    getBlockByIndex h index = Gives true /\
    preRangeText h = Gives text /\
    stored = Z.of_nat (String.length text).
Proof.
  unfold getCaretPosition.
  destruct (getCurrentBlockIndex h) as [[cur|]|] eqn:Ecur; try discriminate.
  destruct (getBlockByIndex h cur) as [[]|] eqn:Eblock; try discriminate.
  destruct (holderElement (page h)) as [contents|]; try discriminate.
  destruct (at_ contents cur) as [content|]; try discriminate.
  destruct (firstChild content); try discriminate.
  destruct (negb (windowSelection (page h)) || (rangeCount h =? 0)); try discriminate.
  destruct (preRangeText h) as [text|] eqn:Etext; try discriminate.
  simpl. intros E. injection E as <-. split; [lia|].
  exists cur, text. auto.
Qed.

Lemma len_nil_inv {A} (l : list A) : len l <= 0 -> l = [].
Proof. destruct l; [reflexivity|]. unfold len. simpl. lia. Qed.

Lemma perform_anchored op m : anchored m -> anchored (after (perform op m)).
Proof.
  intros [Hwf Hempty]. split; [now apply perform_wellFormed|].
  destruct op as [data|[output|] caret|host|host]; cbn [perform].
  - simpl. discriminate.
  - destruct (hasChanged m output) eqn:E.
    + destruct (push_at_tail output caret m E) as [Hp _]. rewrite Hp.
      rewrite captureSnapshot_after, captureEnd_push by exact E. simpl.
      rewrite len_app. pose proof (len_nonneg (history (trimHistory (withIsSaving true m)))).
      unfold len at 2. simpl. lia.
    + rewrite captureSnapshot_after, captureEnd_same by exact E. exact Hempty.
  - exact Hempty.
  - unfold undo, canUndo. destruct (Z.ltb_spec 0 (position m)); simpl; [|exact Hempty].
    destruct (restore host _) as [done []]; simpl; lia.
  - unfold redo, canRedo. destruct (Z.leb_spec 0 (position m)); simpl; [|exact Hempty].
    destruct (Z.ltb_spec (position m) (len (history m) - 1)); simpl; [|exact Hempty].
    destruct (restore host _) as [done []]; simpl; lia.
Qed.

Lemma performAll_anchored ops : forall m, anchored m -> anchored (performAll ops m).
Proof.
  induction ops as [|op ops IH]; intros m H; simpl; [exact H|].
  apply IH. now apply perform_anchored.
Qed.

Lemma constructor_anchored cfg : anchored (constructor cfg).
Proof. split; [apply constructor_wellFormed | reflexivity]. Qed.

(** What an [undo()] or [redo()] that has moved the cursor to [item] hands
    to [editor.render], whether or not the render resolves. *)
Lemma navigation_renders host item m1 :
  rendered (effects (match restore host (Some item) with
                     | (done, Returned) =>
                         {| after := m1; effects := done ++ notify m1; completion := Returned |}
                     | (done, Rejected) =>
                         {| after := m1; effects := done; completion := Rejected |}
                     end)) = [blocks item].
Proof.
  unfold restore. rewrite cloneBlocks_copy.
  destruct (renderResolves host); simpl; [|reflexivity].
  rewrite rendered_app. destruct (restoreCaret_quiet host item) as [_ ->]. reflexivity.
Qed.

Lemma undo_after host m :
  after (undo host m) = if canUndo m then withPosition (position m - 1) m else m.
Proof.
  unfold undo. destruct (canUndo m); simpl; [|reflexivity].
  destruct (restore host _) as [done []]; reflexivity.
Qed.

Lemma redo_after host m :
  after (redo host m) = if canRedo m then withPosition (position m + 1) m else m.
Proof.
  unfold redo. destruct (canRedo m); simpl; [|reflexivity].
  destruct (restore host _) as [done []]; reflexivity.
Qed.

Lemma undo_repeated host n : forall m,
  history (performAll (repeat (Undo host) n) m) = history m /\
  config (performAll (repeat (Undo host) n) m) = config m /\
  position (performAll (repeat (Undo host) n) m) =
  Z.min (position m) (Z.max 0 (position m - Z.of_nat n)).
Proof.
  induction n as [|n IH]; intros m.
  - simpl. repeat split. lia.
  - cbn [repeat performAll perform]. destruct (IH (after (undo host m))) as (Hh & Hc & Hp).
    rewrite Hh, Hc, Hp, undo_after. unfold canUndo.
    destruct (Z.ltb_spec 0 (position m)); simpl; repeat split; lia.
Qed.

Lemma redo_repeated host n : forall m,
  history (performAll (repeat (Redo host) n) m) = history m /\
  config (performAll (repeat (Redo host) n) m) = config m /\
  position (performAll (repeat (Redo host) n) m) =
  if 0 <=? position m
  then Z.max (position m) (Z.min (len (history m) - 1) (position m + Z.of_nat n))
  else position m.
Proof.
  induction n as [|n IH]; intros m.
  - simpl. repeat split. destruct (Z.leb_spec 0 (position m)); lia.
  - cbn [repeat performAll perform]. destruct (IH (after (redo host m))) as (Hh & Hc & Hp).
    rewrite Hh, Hc, Hp, redo_after. unfold canRedo.
    destruct (Z.leb_spec 0 (position m)); simpl.
    + destruct (Z.ltb_spec (position m) (len (history m) - 1)); simpl; repeat split.
      * destruct (Z.leb_spec 0 (position m + 1)); lia.
      * destruct (Z.leb_spec 0 (position m)); lia.
    + repeat split. destruct (Z.leb_spec 0 (position m)); lia.
Qed.

Lemma at_kept m : 0 <= position m -> at_ (kept m) (position m) = at_ (history m) (position m).
Proof.
  intros H. unfold at_, kept. destruct (Z.ltb_spec (position m) 0); [lia|].
  rewrite nth_error_firstn.
  destruct (Nat.ltb_spec (Z.to_nat (position m)) (Z.to_nat (position m + 1))); [reflexivity | lia].
Qed.

(** After a push, the entry before the new one is the one that was current. *)
Lemma push_previous output caret m :
  wellFormed m -> 0 <= position m -> (2 <= maxHistory (config m))%Q ->
  hasChanged m output = true ->
  let m1 := after (captureSnapshot (Some output) caret m) in
  0 < position m1 /\
  at_ (history m1) (position m1 - 1) = at_ (history m) (position m).
Proof.
  intros Hwf Hpos Hmax H m1.
  destruct (push_at_tail output caret m H) as [Hp _]. fold m1 in Hp.
  assert (Hone : (1 <= maxHistory (config m))%Q).
  { apply Qle_trans with (2 := Hmax). discriminate. }
  assert (Htwo : 2 <= Qceiling (maxHistory (config m))).
  { change 2 with (Qceiling (inject_Z 2)). now apply Qceiling_resp_le. }
  assert (Hh : history m1 =
               skipn (List.length (kept m ++ [snapshot output caret])
                      - Z.to_nat (Qceiling (maxHistory (config m))))
                 (kept m ++ [snapshot output caret])).
  { apply push_history; assumption. }
  assert (Hk : len (kept m) = position m + 1).
  { unfold kept. apply len_firstn. unfold wellFormed in Hwf. lia. }
  rewrite <- (at_kept m Hpos).
  unfold len in *. rewrite Hp, Hh, length_skipn, length_app. simpl.
  split; [lia|].
  unfold at_.
  destruct (Z.ltb_spec
              (Z.of_nat (List.length (kept m) + 1
                         - (List.length (kept m) + 1
                            - Z.to_nat (Qceiling (maxHistory (config m))))) - 1 - 1) 0);
    [lia|].
  destruct (Z.ltb_spec (position m) 0); [lia|].
  rewrite nth_error_skipn, nth_error_app1 by lia. f_equal. lia.
Qed.

End MoreManagerFacts.

(* ================================================================= *)
(** ** More of the shortcut matcher: normalization and the defaults *)

Module MoreShortcutFacts.
Import ShortcutFacts.

Lemma toLowerCaseChar_idempotent c : toLowerCaseChar (toLowerCaseChar c) = toLowerCaseChar c.
Proof. destruct c as [[] [] [] [] [] [] [] []]; reflexivity. Qed.

Lemma toLowerCase_idempotent s : toLowerCase (toLowerCase s) = toLowerCase s.
Proof.
  induction s as [|c s IH]; simpl; [reflexivity|].
  now rewrite toLowerCaseChar_idempotent, IH.
Qed.

Lemma isWhiteSpace_lower c : isWhiteSpace (toLowerCaseChar c) = isWhiteSpace c.
Proof. destruct c as [[] [] [] [] [] [] [] []]; reflexivity. Qed.

Lemma lower_is_plus c : (toLowerCaseChar c =? "+")%char = (c =? "+")%char.
Proof. destruct c as [[] [] [] [] [] [] [] []]; reflexivity. Qed.

Lemma trimStart_lower s : trimStart (toLowerCase s) = toLowerCase (trimStart s).
Proof.
  induction s as [|c s IH]; simpl; [reflexivity|].
  rewrite isWhiteSpace_lower. destruct (isWhiteSpace c); [exact IH | reflexivity].
Qed.

Lemma trimEnd_lower s : trimEnd (toLowerCase s) = toLowerCase (trimEnd s).
Proof.
  induction s as [|c s IH]; simpl; [reflexivity|].
  rewrite IH, isWhiteSpace_lower.
  destruct (trimEnd s); simpl; [destruct (isWhiteSpace c)|]; reflexivity.
Qed.

Lemma trim_lower s : trim (toLowerCase s) = toLowerCase (trim s).
Proof. unfold trim. now rewrite trimStart_lower, trimEnd_lower. Qed.

Lemma normalize_lower s : toLowerCase (trim (toLowerCase s)) = toLowerCase (trim s).
Proof. now rewrite trim_lower, toLowerCase_idempotent. Qed.

Lemma split_lower s : split "+" (toLowerCase s) = map toLowerCase (split "+" s).
Proof.
  induction s as [|c s IH]; simpl; [reflexivity|].
  rewrite lower_is_plus, IH. destruct (c =? "+")%char; [reflexivity|].
  destruct (split "+" s); reflexivity.
Qed.

Lemma tokens_lower_parts parts : tokens (Tokens (map toLowerCase parts)) = tokens (Tokens parts).
Proof.
  unfold tokens. rewrite map_map. apply map_ext. intros p. apply normalize_lower.
Qed.

Lemma tokens_lower_combination s :
  tokens (Combination (toLowerCase s)) = tokens (Combination s).
Proof.
  unfold tokens. rewrite split_lower, map_map. apply map_ext. intros p. apply normalize_lower.
Qed.

Lemma tokens_split s : tokens (Combination s) = tokens (Tokens (split "+" s)).
Proof. reflexivity. Qed.

(** The two default undo definitions, as one test on the event. *)
Lemma matches_default_undo event :
  matches event (undoShortcuts DEFAULT_SHORTCUTS) =
  String.eqb (toLowerCase (key event)) "z" && negb (shiftKey event) && negb (altKey event) &&
  xorb (ctrlKey event) (metaKey event).
Proof.
  unfold matches. simpl existsb. rewrite !matchesShortcut_unfold.
  change (tokens (Combination "CMD+Z")) with ["cmd"; "z"]%string.
  change (tokens (Combination "CTRL+Z")) with ["ctrl"; "z"]%string.
  simpl.
  destruct (String.eqb (toLowerCase (key event)) "z"), (ctrlKey event), (metaKey event),
    (altKey event), (shiftKey event); reflexivity.
Qed.

Lemma matches_default_redo event :
  matches event (redoShortcuts DEFAULT_SHORTCUTS) =
  negb (altKey event) &&
  ((String.eqb (toLowerCase (key event)) "z" && shiftKey event &&
    xorb (ctrlKey event) (metaKey event)) ||
   (String.eqb (toLowerCase (key event)) "y" && negb (shiftKey event) &&
    ctrlKey event && negb (metaKey event))).
Proof.
  unfold matches. simpl existsb. rewrite !matchesShortcut_unfold.
  change (tokens (Combination "CMD+SHIFT+Z")) with ["cmd"; "shift"; "z"]%string.
  change (tokens (Combination "CTRL+SHIFT+Z")) with ["ctrl"; "shift"; "z"]%string.
  change (tokens (Combination "CTRL+Y")) with ["ctrl"; "y"]%string.
  simpl.
  destruct (String.eqb (toLowerCase (key event)) "z"),
    (String.eqb (toLowerCase (key event)) "y"), (ctrlKey event), (metaKey event),
    (altKey event), (shiftKey event); reflexivity.
Qed.

Lemma resolveShortcuts_nonempty input fallback :
  fallback <> [] -> resolveShortcuts input fallback <> [].
Proof.
  intros H. destruct input as [[|d ds]|]; simpl; try exact H. discriminate.
Qed.

Lemma resolveShortcuts_given d ds fallback :
  resolveShortcuts (Some (d :: ds)) fallback = d :: ds.
Proof. unfold resolveShortcuts. now rewrite map_id. Qed.

End MoreShortcutFacts.

(* ================================================================= *)
(** ** More of the coalescer: bursts and rejected saves *)

Module MoreCoalescerFacts.
Import Coalescer CoalescerState CoalescerFacts.

Lemma run_app a : forall b l, run (a ++ b) l = run b (run a l).
Proof.
  induction a as [|e a IH]; intros b l; simpl; [reflexivity|].
  destruct (step e l); apply IH.
Qed.

Lemma saveCalls_app t t' : saveCalls (t ++ t') = (saveCalls t + saveCalls t')%nat.
Proof. unfold saveCalls. now rewrite filter_app, length_app. Qed.

(** A burst of calls only re-arms the timer. *)
Lemma run_burst n : forall l,
  let l' := run (repeat HandleEditorChange (S n)) l in
  manager l' = manager l /\
  suspended l' = suspended l /\
  timeout l' = Some (calls l + n)%nat /\
  calls l' = (calls l + S n)%nat /\
  saveCalls (trace l') = saveCalls (trace l) /\
  (forall c, isResolved c (trace l') = isResolved c (trace l)).
Proof.
  induction n as [|n IH]; intros l.
  - simpl. repeat split; try (f_equal; lia).
    + rewrite saveCalls_app. simpl. unfold saveCalls at 2. simpl. lia.
    + intros c. rewrite isResolved_app. simpl. apply orb_false_r.
  - change (repeat HandleEditorChange (S (S n)))
      with (HandleEditorChange :: repeat HandleEditorChange (S n)).
    cbn [run step]. destruct (IH (handleEditorChange l)) as (Hm & Hs & Ht & Hc & Hv & Hr).
    repeat split.
    + now rewrite Hm.
    + now rewrite Hs.
    + rewrite Ht. simpl. f_equal. lia.
    + rewrite Hc. simpl. lia.
    + rewrite Hv. simpl. rewrite saveCalls_app. unfold saveCalls at 2. simpl. lia.
    + intros c. rewrite Hr. simpl. rewrite isResolved_app. simpl. apply orb_false_r.
Qed.

Lemma isResolved_resolved c c' t :
  isResolved c (t ++ [Resolved c']) = isResolved c t || Nat.eqb c' c.
Proof. rewrite isResolved_app. simpl. now rewrite orb_false_r. Qed.

Lemma start_coherent m : coherent (start m).
Proof.
  unfold coherent. simpl. split; [|split]; intros c H; try discriminate H. destruct H.
Qed.

Lemma coherent_intro l :
  (forall c, timeout l = Some c ->
             (c < calls l)%nat /\ ~ In c (map fst (suspended l)) /\
             isResolved c (trace l) = false) ->
  (forall c, In c (map fst (suspended l)) ->
             (c < calls l)%nat /\ isResolved c (trace l) = false) ->
  (forall c, isResolved c (trace l) = true -> (c < calls l)%nat) ->
  coherent l.
Proof. intros H1 H2 H3. exact (conj H1 (conj H2 H3)). Qed.

Lemma step_coherent e l l' :
  serialized l -> coherent l -> step e l = Some l' -> coherent l'.
Proof.
  intros Hser (Ht & Hs & Hr) Hstep. destruct e as [| |i saved caret]; simpl in Hstep.
  - injection Hstep as <-. apply coherent_intro; simpl.
    + intros c H. injection H as <-. split; [lia|]. split.
      * intros Hin. destruct (Hs _ Hin). lia.
      * rewrite isResolved_app. simpl. rewrite orb_false_r.
        destruct (isResolved (calls l) (trace l)) eqn:E; [|reflexivity].
        apply Hr in E. lia.
    + intros c H. destruct (Hs _ H) as [Hlt Hnr]. split; [lia|].
      rewrite isResolved_app. simpl. now rewrite orb_false_r.
    + intros c H. rewrite isResolved_app in H. simpl in H. rewrite orb_false_r in H.
      apply Hr in H. lia.
  - destruct (timeout l) as [call|] eqn:E; [|discriminate]. injection Hstep as <-.
    destruct (Ht call eq_refl) as (Hlt & Hnin & Hnr).
    unfold timerCallback. destruct (isSaving (manager l)); apply coherent_intro; simpl.
    + intros c H. discriminate H.
    + intros c H. destruct (Hs _ H) as [Hc Hcr]. split; [exact Hc|].
      rewrite isResolved_resolved, Hcr. simpl.
      apply Nat.eqb_neq. intros ->. contradiction.
    + intros c H. rewrite isResolved_resolved in H. apply orb_prop in H.
      destruct H as [H|H]; [now apply Hr | apply Nat.eqb_eq in H; now subst].
    + intros c H. discriminate H.
    + intros c H. rewrite isResolved_app. simpl. rewrite orb_false_r.
      rewrite map_app in H. apply in_app_or in H. simpl in H.
      destruct H as [H|[<-|[]]]; [now apply Hs | now split].
    + intros c H. rewrite isResolved_app in H. simpl in H. rewrite orb_false_r in H.
      now apply Hr.
  - destruct (nth_error (suspended l) i) as [[call stage]|] eqn:E; [|discriminate].
    injection Hstep as <-.
    destruct Hser as [(Hb & r & Hsus)|(Hb & Hsus)]; [|rewrite Hsus in E; destruct i; discriminate].
    rewrite Hsus in E. destruct i as [|i]; [|destruct i; discriminate].
    injection E as ->.
    assert (Hcall : (call < calls l)%nat /\ isResolved call (trace l) = false).
    { apply Hs. rewrite Hsus. now left. }
    destruct Hcall as [Hlt Hnr].
    assert (Harmed : forall c, timeout l = Some c ->
                (c < calls l)%nat /\ c <> call /\ isResolved c (trace l) = false).
    { intros c Hc. destruct (Ht _ Hc) as (H1 & Hnin & H3). repeat split; try assumption.
      intros ->. apply Hnin. rewrite Hsus. now left. }
    assert (Hseen : forall c done, isResolved c (trace l ++ map HostCall done)
                                   = isResolved c (trace l)).
    { intros c done. rewrite isResolved_app, isResolved_hostCalls. apply orb_false_r. }
    assert (Hgone : coherent
              {| manager := after (captureEnd saved caret (manager l));
                 timeout := timeout l; suspended := []; calls := calls l;
                 trace := trace l ++ map HostCall (effects (captureEnd saved caret (manager l))) |}).
    { apply coherent_intro; simpl.
      - intros c H. destruct (Harmed _ H) as (H1 & _ & H3). rewrite Hseen. auto.
      - intros c [].
      - intros c H. rewrite Hseen in H. now apply Hr. }
    assert (Hdone : coherent
              {| manager := after (captureEnd saved caret (manager l));
                 timeout := timeout l; suspended := []; calls := calls l;
                 trace := (trace l ++ map HostCall (effects (captureEnd saved caret (manager l))))
                          ++ [Resolved call] |}).
    { apply coherent_intro; simpl.
      - intros c H. destruct (Harmed _ H) as (H1 & H2 & H3).
        rewrite isResolved_resolved, Hseen, H3. simpl. repeat split; auto.
        now apply Nat.eqb_neq.
      - intros c [].
      - intros c H. rewrite isResolved_resolved, Hseen in H. apply orb_prop in H.
        destruct H as [H|H]; [now apply Hr | apply Nat.eqb_eq in H; now subst]. }
    unfold resume. rewrite Hsus. unfold removeAt, replaceAt. simpl.
    destruct (completion (captureEnd saved caret (manager l))), stage;
      try exact Hgone; try exact Hdone.
    destruct (pendingSave (after (captureEnd saved caret (manager l)))); [|exact Hdone].
    apply coherent_intro; simpl.
    + intros c H. destruct (Harmed _ H) as (H1 & H2 & H3).
      rewrite isResolved_app, Hseen, H3. simpl. repeat split; auto.
      intros [->|[]]. now apply H2.
    + intros c [<-|[]]. split; [exact Hlt|]. rewrite isResolved_app, Hseen, Hnr. reflexivity.
    + intros c H. rewrite isResolved_app, Hseen in H. simpl in H. rewrite orb_false_r in H.
      now apply Hr.
Qed.

Lemma run_reachable events : forall l,
  serialized l -> coherent l -> serialized (run events l) /\ coherent (run events l).
Proof.
  induction events as [|e events IH]; intros l Hs Hc; simpl; [now split|].
  destruct (step e l) as [l'|] eqn:E; apply IH; try assumption.
  - eapply step_serialized; eauto.
  - eapply step_coherent; eauto.
Qed.

(** The run whose [editor.save()] rejects is over, and nothing holds the
    [resolve] of its call any more. *)
Lemma rejected_abandoned call stage caret l :
  serialized l -> coherent l -> nth_error (suspended l) 0 = Some (call, stage) ->
  abandoned call (resume 0 call stage None caret l).
Proof.
  intros Hser (Ht & Hs & Hr) E.
  destruct Hser as [(Hb & r & Hsus)|(Hb & Hsus)]; [|rewrite Hsus in E; discriminate].
  rewrite Hsus in E. injection E as ->.
  assert (Hcall : (call < calls l)%nat /\ isResolved call (trace l) = false).
  { apply Hs. rewrite Hsus. now left. }
  destruct Hcall as [Hlt Hnr].
  unfold resume, abandoned. simpl. rewrite Hsus. unfold removeAt. simpl. repeat split.
  - intros H. destruct (Ht _ H) as (_ & Hnin & _). apply Hnin. rewrite Hsus. now left.
  - tauto.
  - exact Hlt.
  - now rewrite List.app_nil_r.
Qed.

End MoreCoalescerFacts.

(* ================================================================= *)
(** ** Further properties of the code *)

Import MoreManagerFacts MoreShortcutFacts CoalescerState MoreCoalescerFacts.

(** X1.  [cloneBlocks] gives back the blocks it is handed: the text
    [JSON.stringify] writes for any JSON value is read back by [JSON.parse]
    as that value, so a stored snapshot holds exactly the captured content. *)
Theorem X1_cloneBlocks_keeps_content blocks v :
  cloneBlocks blocks = blocks /\ parse (stringify v) = Some v.
Proof. split; [apply cloneBlocks_copy | apply JSONFacts.parse_stringify]. Qed.

(** X2.  [captureSnapshot] leaves [isSaving] false on every path, also when
    [editor.save()] rejects; a rejected save changes nothing else in the
    manager and tells the observer nothing. *)
Theorem X2_capture_always_clears_isSaving saved caret m :
  isSaving (after (captureSnapshot saved caret m)) = false /\
  after (captureSnapshot None caret m) = withIsSaving false m /\
  notifications (effects (captureSnapshot None caret m)) = [] /\
  completion (captureSnapshot None caret m) = Rejected.
Proof. split; [apply captureSnapshot_isSaving | repeat split]. Qed.

(** X3.  Capturing the same content twice pushes at most once: a second
    capture of the content just captured leaves the manager as it is,
    completes and does not call the observer, whatever the caret. *)
Theorem X3_capture_same_content_twice output caret caret' m :
  let m1 := after (captureSnapshot (Some output) caret m) in
  let again := captureSnapshot (Some output) caret' m1 in
  after again = m1 /\
  notifications (effects again) = [] /\
  completion again = Returned.
Proof.
  intros m1 again. subst again m1. rewrite capture_twice. repeat split.
Qed.

(** X4.  [initialize] forgets whatever the history held: it leaves exactly
    one snapshot, the given blocks without caret, at position 0, keeps the
    configuration, and right after it the same blocks count as unchanged
    and [undo()] and [redo()] do nothing. *)
Theorem X4_initialize_resets initialData host m :
  let m' := after (initialize initialData m) in
  history m' = [seed initialData] /\
  position m' = 0 /\
  config m' = config m /\
  hasChanged m' (extractBlocks initialData) = false /\
  undo host m' = unchanged m' /\
  redo host m' = unchanged m'.
Proof.
  intros m'. subst m'. rewrite initialize_after.
  split; [reflexivity|]. split; [reflexivity|]. split; [reflexivity|].
  split; [|split; reflexivity].
  apply hasChanged_current. reflexivity.
Qed.

(** X5.  The history never holds anything but what was put in: after any
    operations on a new manager, every entry is the seed of an [initialize]
    or the snapshot of a capture whose save resolved, among those operations. *)
Theorem X5_history_entries_originate cfg ops item :
  In item (history (performAll ops (constructor cfg))) -> originates item ops.
Proof.
  intros H. destruct (performAll_history ops _ _ H) as [[]|H']. exact H'.
Qed.

Lemma X5_witness :
  originates (snapshot Sample.second Sample.caret)
    [Initialize (DataArray Sample.first);
     CaptureSnapshot (Some Sample.second) Sample.caret].
Proof.
  apply (X5_history_entries_originate (Sample.cfg 100)).
  vm_compute. right. left. reflexivity.
Defined.

(** X6.  [getCaretPosition] gives an offset only together with a block
    index: then the index is the host's current block index, that block
    exists, and the offset is the length of the text before the caret. *)
Theorem X6_caret_offset_needs_block h stored :
  offset (getCaretPosition h) = Some stored ->
  0 <= stored /\
  exists index text,
    blockIndex (getCaretPosition h) = Some index /\
    getCurrentBlockIndex h = Gives (Some index) /\
    getBlockByIndex h index = Gives true /\
    preRangeText h = Gives text /\
    stored = Z.of_nat (String.length text).
Proof. apply getCaretPosition_consistent. Qed.

Lemma X6_witness :
  0 <= 5 /\
  exists index text,
    blockIndex (getCaretPosition SampleCaret.caretHost) = Some index /\
    getCurrentBlockIndex SampleCaret.caretHost = Gives (Some index) /\
    getBlockByIndex SampleCaret.caretHost index = Gives true /\
    preRangeText SampleCaret.caretHost = Gives text /\
    5 = Z.of_nat (String.length text).
Proof.
  apply (X6_caret_offset_needs_block SampleCaret.caretHost 5). reflexivity.
Defined.

(** X7.  When every capture takes its caret from [getCaretPosition], every
    entry of the history that stores a caret offset stores a block index as
    well, and the offset is not negative. *)
Theorem X7_stored_carets_consistent cfg ops item :
  caretsFromHost ops ->
  In item (history (performAll ops (constructor cfg))) ->
  caretConsistent item.
Proof.
  intros Hhost Hin stored Hstored.
  destruct (performAll_history ops _ _ Hin) as [[]|[(d & _ & ->)|(o & c & Hop & ->)]].
  - discriminate Hstored.
  - destruct (Hhost _ _ Hop) as [h ->]. simpl in Hstored.
    destruct (getCaretPosition_consistent h stored Hstored) as (Hpos & index & text & Hi & _).
    split; [exact Hpos|]. exists index. exact Hi.
Qed.

Lemma X7_witness :
  caretConsistent (snapshot Sample.second (getCaretPosition SampleCaret.caretHost)).
Proof.
  apply (X7_stored_carets_consistent (Sample.cfg 100)
           [Initialize (DataArray Sample.first);
            CaptureSnapshot (Some Sample.second) (getCaretPosition SampleCaret.caretHost)]).
  - intros saved caret [H|[H|[]]]; [discriminate H|].
    injection H as _ <-. exists SampleCaret.caretHost. reflexivity.
  - vm_compute. right. left. reflexivity.
Defined.



(** X9.  With the built-in shortcuts, [handleKeyDown] starts an undo exactly
    for the key z with one of Ctrl and Cmd (not both), no Shift and no Alt;
    a redo exactly for z with Shift and one of Ctrl and Cmd, or y with Ctrl
    alone, no Alt; for any other event it does nothing and does not call
    [preventDefault].  No event matches both an undo and a redo shortcut. *)
Theorem X9_default_key_handling host event m :
  shortcuts (config m) = DEFAULT_SHORTCUTS ->
  let z := String.eqb (toLowerCase (key event)) "z" in
  let y := String.eqb (toLowerCase (key event)) "y" in
  let one := xorb (ctrlKey event) (metaKey event) in
  handleKeyDown host event m =
    (if z && negb (shiftKey event) && negb (altKey event) && one
     then (true, undo host m)
     else if negb (altKey event) &&
             ((z && shiftKey event && one) ||
              (y && negb (shiftKey event) && ctrlKey event && negb (metaKey event)))
     then (true, redo host m)
     else (false, unchanged m)) /\
  (matches event (undoShortcuts DEFAULT_SHORTCUTS) = true ->
   matches event (redoShortcuts DEFAULT_SHORTCUTS) = false).
Proof.
  intros Hs z y one. split.
  - unfold handleKeyDown. rewrite Hs, matches_default_undo, matches_default_redo.
    reflexivity.
  - rewrite matches_default_undo, matches_default_redo. fold z y.
    assert (Hzy : z && y = false).
    { subst z y. destruct (String.eqb_spec (toLowerCase (key event)) "z") as [->|];
        reflexivity. }
    destruct z, y, (ctrlKey event), (metaKey event), (altKey event), (shiftKey event);
      simpl; try reflexivity; try discriminate.
Qed.

Lemma X9_witness :
  handleKeyDown Sample.host (Sample.keydown "Z" true false) (constructor (Sample.cfg 100)) =
  (true, undo Sample.host (constructor (Sample.cfg 100))) /\
  handleKeyDown Sample.host (Sample.keydown "y" true false) (constructor (Sample.cfg 100)) =
  (true, redo Sample.host (constructor (Sample.cfg 100))).
Proof.
  split.
  - apply (proj1 (X9_default_key_handling Sample.host (Sample.keydown "Z" true false)
                    (constructor (Sample.cfg 100)) eq_refl)).
  - apply (proj1 (X9_default_key_handling Sample.host (Sample.keydown "y" true false)
                    (constructor (Sample.cfg 100)) eq_refl)).
Defined.

(** X10.  Whatever the configuration, each of the two shortcut lists the
    constructor resolves is the configured list when one is given and is
    not empty, and the built-in list otherwise (no [shortcuts] option, no
    list in it, or an empty list); so neither list is ever empty. *)
Theorem X10_shortcuts_never_empty cfg :
  let given (pick : ShortcutConfiguration -> option (list ShortcutDefinition)) :=
    match UndoConfig.shortcuts cfg with
    | Some s => pick s
    | None => None
    end in
  undoShortcuts (shortcuts (config (constructor cfg))) =
    match given undoOption with
    | Some (d :: ds) => d :: ds
    | _ => undoShortcuts DEFAULT_SHORTCUTS
    end /\
  redoShortcuts (shortcuts (config (constructor cfg))) =
    match given redoOption with
    | Some (d :: ds) => d :: ds
    | _ => redoShortcuts DEFAULT_SHORTCUTS
    end /\
  undoShortcuts (shortcuts (config (constructor cfg))) <> [] /\
  redoShortcuts (shortcuts (config (constructor cfg))) <> [].
Proof.
  intros given. subst given. cbn [constructor config shortcuts undoShortcuts redoShortcuts].
  split; [|split; [|split]].
  - destruct (UndoConfig.shortcuts cfg) as [sc|]; [|reflexivity].
    destruct (undoOption sc) as [[|d ds]|]; try reflexivity. apply resolveShortcuts_given.
  - destruct (UndoConfig.shortcuts cfg) as [sc|]; [|reflexivity].
    destruct (redoOption sc) as [[|d ds]|]; try reflexivity. apply resolveShortcuts_given.
  - apply resolveShortcuts_nonempty. discriminate.
  - apply resolveShortcuts_nonempty. discriminate.
Qed.

(** X11.  Matching does not depend on the case of the definition or of the
    event's key: lower-casing a combination string, the tokens of a token
    list, or the key of the event changes no match; and a combination
    string matches as the list of its [+]-separated parts does. *)
Theorem X11_matching_ignores_case event shortcut s parts :
  matchesShortcut event (Combination (toLowerCase s)) = matchesShortcut event (Combination s) /\
  matchesShortcut event (Tokens (map toLowerCase parts)) = matchesShortcut event (Tokens parts) /\
  matchesShortcut (withKey (toLowerCase (key event)) event) shortcut =
    matchesShortcut event shortcut /\
  matchesShortcut event (Combination s) = matchesShortcut event (Tokens (split "+" s)).
Proof.
  rewrite !matchesShortcut_unfold, tokens_lower_combination, tokens_lower_parts.
  repeat split. simpl. now rewrite toLowerCase_idempotent.
Qed.

(** X12.  After any operations on a new manager the cursor is [-1] or
    points at an entry, and it is [-1] only while the history is empty; so
    [restore] is never handed a missing entry: an [undo()] or [redo()] that
    moves the cursor calls [editor.render] once, with the content of the
    entry it moves to. *)
Theorem X12_cursor_points_at_an_entry cfg ops host :
  let m := performAll ops (constructor cfg) in
  -1 <= position m < len (history m) /\
  (position m = -1 <-> history m = []) /\
  (canUndo m = true ->
   exists item, at_ (history m) (position m - 1) = Some item /\
                rendered (effects (undo host m)) = [blocks item]) /\
  (canRedo m = true ->
   exists item, at_ (history m) (position m + 1) = Some item /\
                rendered (effects (redo host m)) = [blocks item]).
Proof.
  intros m.
  destruct (performAll_anchored ops _ (constructor_anchored cfg)) as [Hwf Hempty].
  fold m in Hwf, Hempty. split; [exact Hwf|]. split; [|split].
  - split; [exact Hempty|]. intros H. unfold wellFormed in Hwf. rewrite H in Hwf.
    unfold len in Hwf. simpl in Hwf. lia.
  - intros Hc. destruct Hwf as [Hlo Hhi]. pose proof Hc as Hpos. apply Z.ltb_lt in Hpos.
    destruct (at_in_range (history m) (position m - 1)) as [item Hitem]; [lia|].
    exists item. split; [exact Hitem|].
    unfold undo. rewrite Hc. simpl. rewrite Hitem. apply navigation_renders.
  - intros Hc. destruct Hwf as [Hlo Hhi]. pose proof Hc as Hpos.
    unfold canRedo in Hpos. apply andb_prop in Hpos. destruct Hpos as [H0 H1].
    apply Z.leb_le in H0. apply Z.ltb_lt in H1.
    destruct (at_in_range (history m) (position m + 1)) as [item Hitem]; [lia|].
    exists item. split; [exact Hitem|].
    unfold redo. rewrite Hc. simpl. rewrite Hitem. apply navigation_renders.
Qed.

Lemma X12_witness :
  let m := performAll [Initialize (DataArray Sample.first);
                       CaptureSnapshot (Some Sample.second) Sample.caret]
             (constructor (Sample.cfg 100)) in
  exists item, at_ (history m) (position m - 1) = Some item /\
               rendered (effects (undo Sample.host m)) = [blocks item].
Proof.
  intros m.
  apply (proj1 (proj2 (proj2 (X12_cursor_points_at_an_entry (Sample.cfg 100)
           [Initialize (DataArray Sample.first);
            CaptureSnapshot (Some Sample.second) Sample.caret] Sample.host)))).
  reflexivity.
Defined.

(** X13.  [undo()] called [n] times moves the cursor back by [n] but not
    below the oldest entry, and [redo()] called [n] times moves it forward
    by [n] but not past the newest; neither touches the entries or the
    configuration, whether or not the host's [render] resolves. *)
Theorem X13_navigation_saturates host n m :
  history (performAll (repeat (Undo host) n) m) = history m /\
  position (performAll (repeat (Undo host) n) m) =
    Z.min (position m) (Z.max 0 (position m - Z.of_nat n)) /\
  history (performAll (repeat (Redo host) n) m) = history m /\
  position (performAll (repeat (Redo host) n) m) =
    (if 0 <=? position m
     then Z.max (position m) (Z.min (len (history m) - 1) (position m + Z.of_nat n))
     else position m) /\
  config (performAll (repeat (Undo host) n) m) = config m /\
  config (performAll (repeat (Redo host) n) m) = config m.
Proof.
  destruct (undo_repeated host n m) as (Hh & Hc & Hp).
  destruct (redo_repeated host n m) as (Hh' & Hc' & Hp').
  repeat split; assumption.
Qed.

(** X14.  When the host's [render] rejects during an [undo()] or [redo()]
    that had somewhere to go, the call rejects and the observer is not
    called, but the cursor has already moved. *)
Theorem X14_failed_render_still_moves host cfg ops :
  let m := performAll ops (constructor cfg) in
  renderResolves host = false ->
  (canUndo m = true ->
   completion (undo host m) = Rejected /\
   position (after (undo host m)) = position m - 1 /\
   notifications (effects (undo host m)) = []) /\
  (canRedo m = true ->
   completion (redo host m) = Rejected /\
   position (after (redo host m)) = position m + 1 /\
   notifications (effects (redo host m)) = []).
Proof.
  intros m Hr.
  assert (Hwf : wellFormed m) by (apply performAll_wellFormed, constructor_wellFormed).
  destruct Hwf as [Hlo Hhi]. split; intros Hc.
  - unfold undo. rewrite Hc. simpl. apply Z.ltb_lt in Hc.
    destruct (at_in_range (history m) (position m - 1)) as [item ->]; [lia|].
    unfold restore. rewrite Hr. simpl. repeat split.
  - unfold redo. rewrite Hc. simpl. unfold canRedo in Hc. apply andb_prop in Hc.
    destruct Hc as [H0 H1]. apply Z.leb_le in H0. apply Z.ltb_lt in H1.
    destruct (at_in_range (history m) (position m + 1)) as [item ->]; [lia|].
    unfold restore. rewrite Hr. simpl. repeat split.
Qed.

Lemma X14_witness :
  let m := performAll [Initialize (DataArray Sample.first);
                       CaptureSnapshot (Some Sample.second) Sample.caret]
             (constructor (Sample.cfg 100)) in
  completion (undo SampleCaret.failingHost m) = Rejected /\
  position (after (undo SampleCaret.failingHost m)) = position m - 1 /\
  notifications (effects (undo SampleCaret.failingHost m)) = [].
Proof.
  intros m.
  apply (proj1 (X14_failed_render_still_moves SampleCaret.failingHost (Sample.cfg 100)
                  [Initialize (DataArray Sample.first);
                   CaptureSnapshot (Some Sample.second) Sample.caret] eq_refl)).
  reflexivity.
Defined.

(** X15.  With [maxHistory] 1 or less (zero and negative values included),
    every push leaves the new snapshot as the only entry, so there is never
    anything to undo or redo after it. *)
Theorem X15_maxHistory_one_keeps_only_newest cfg ops output caret :
  let m := performAll ops (constructor cfg) in
  (maxHistory (config (constructor cfg)) <= 1)%Q ->
  hasChanged m output = true ->
  let m' := after (captureSnapshot (Some output) caret m) in
  history m' = [snapshot output caret] /\
  position m' = 0 /\ canUndo m' = false /\ canRedo m' = false.
Proof.
  intros m Hmax H m'.
  assert (Hwf : wellFormed m) by (apply performAll_wellFormed, constructor_wellFormed).
  assert (Hc : config m = config (constructor cfg)) by apply performAll_config.
  assert (Hh : history m' = [snapshot output caret]).
  { subst m'. rewrite captureSnapshot_after, captureEnd_push by exact H. simpl.
    rewrite trimHistory_withIsSaving. simpl. rewrite trimHistory_history by exact Hwf.
    rewrite Hc. pose proof (len_nonneg (kept m)) as Hk.
    destruct (Qle_bool (maxHistory (config (constructor cfg))) (inject_Z (len (kept m))))
      eqn:E.
    - rewrite skipn_all2; [reflexivity|].
      assert (Hall : len (kept m) <=
                     toIntegerOrInfinity
                       (inject_Z (len (kept m)) - maxHistory (config (constructor cfg)) + 1)%Q).
      { unfold toIntegerOrInfinity.
        assert (Hge : (inject_Z (len (kept m)) <=
                       inject_Z (len (kept m)) - maxHistory (config (constructor cfg)) + 1)%Q).
        { generalize (inject_Z (len (kept m))). intros q. lra. }
        assert (Hnn : (0 <= inject_Z (len (kept m)))%Q).
        { change 0%Q with (inject_Z 0). now rewrite <- Zle_Qle. }
        assert (Hpos : Qle_bool 0 (inject_Z (len (kept m))
                                   - maxHistory (config (constructor cfg)) + 1) = true).
        { apply Qle_bool_iff. now apply Qle_trans with (1 := Hnn). }
        rewrite Hpos. rewrite <- (Qfloor_Z (len (kept m))) at 1.
        now apply Qfloor_resp_le. }
      unfold len in *. lia.
    - assert (Hlt : (inject_Z (len (kept m)) < inject_Z 1)%Q).
      { apply Qlt_le_trans with (2 := Hmax). apply Qnot_le_lt.
        rewrite <- Qle_bool_iff, E. discriminate. }
      rewrite <- Zlt_Qlt in Hlt.
      assert (Ek : kept m = []) by (apply len_nil_inv; lia). now rewrite Ek. }
  destruct (push_at_tail output caret m H) as [Hp Hr]. fold m' in Hp, Hr.
  rewrite Hh in Hp. split; [exact Hh|]. split; [exact Hp|]. split; [|exact Hr].
  unfold canUndo. now rewrite Hp.
Qed.

Lemma X15_witness :
  let m := performAll [Initialize (DataArray Sample.first)] (constructor (Sample.cfg 0)) in
  let m' := after (captureSnapshot (Some Sample.second) Sample.caret m) in
  history m' = [snapshot Sample.second Sample.caret] /\
  position m' = 0 /\ canUndo m' = false /\ canRedo m' = false.
Proof.
  apply (X15_maxHistory_one_keeps_only_newest (Sample.cfg 0)
           [Initialize (DataArray Sample.first)] Sample.second Sample.caret).
  - unfold Qle. simpl. lia.
  - vm_compute. reflexivity.
Defined.

(** X16.  With room for two entries or more, [undo()] right after a push
    renders the content that was current before the push, and leaves that
    push to redo. *)
Theorem X16_undo_after_push_restores_previous cfg ops output caret host :
  let m := performAll ops (constructor cfg) in
  0 <= position m ->
  (2 <= maxHistory (config (constructor cfg)))%Q ->
  hasChanged m output = true ->
  renderResolves host = true ->
  exists item,
    at_ (history m) (position m) = Some item /\
    let m1 := after (captureSnapshot (Some output) caret m) in
    completion (undo host m1) = Returned /\
    rendered (effects (undo host m1)) = [blocks item] /\
    canRedo (after (undo host m1)) = true.
Proof.
  intros m Hpos Hmax H Hr.
  assert (Hwf : wellFormed m) by (apply performAll_wellFormed, constructor_wellFormed).
  assert (Hc : config m = config (constructor cfg)) by apply performAll_config.
  destruct (at_in_range (history m) (position m)) as [item Hitem];
    [unfold wellFormed in Hwf; lia|].
  exists item. split; [exact Hitem|]. intros m1.
  destruct (push_previous output caret m Hwf Hpos) as [Hp1 Hprev];
    [now rewrite Hc | exact H |]. fold m1 in Hp1, Hprev.
  destruct (push_at_tail output caret m H) as [Htail _]. fold m1 in Htail.
  rewrite Hitem in Hprev.
  unfold undo, canUndo. apply Z.ltb_lt in Hp1. rewrite Hp1. simpl.
  rewrite Hprev, restore_rendered by exact Hr. simpl. split; [reflexivity|]. split.
  - rewrite rendered_app. destruct (restoreCaret_quiet host item) as [_ ->]. reflexivity.
  - unfold canRedo. simpl. apply Z.ltb_lt in Hp1.
    apply andb_true_iff. split; [apply Z.leb_le | apply Z.ltb_lt]; lia.
Qed.

Lemma X16_witness :
  let m := performAll [Initialize (DataArray Sample.first)] (constructor (Sample.cfg 100)) in
  exists item,
    at_ (history m) (position m) = Some item /\
    let m1 := after (captureSnapshot (Some Sample.second) Sample.caret m) in
    completion (undo Sample.host m1) = Returned /\
    rendered (effects (undo Sample.host m1)) = [blocks item] /\
    canRedo (after (undo Sample.host m1)) = true.
Proof.
  apply (X16_undo_after_push_restores_previous (Sample.cfg 100)
           [Initialize (DataArray Sample.first)] Sample.second Sample.caret Sample.host).
  - vm_compute. discriminate.
  - unfold Qle. simpl. lia.
  - vm_compute. reflexivity.
  - reflexivity.
Defined.

(** X17.  A burst of [n + 1] calls of [handleEditorChange] followed by one
    timer expiry starts exactly one capture, for the last call; the timer
    is then disarmed, and the promises of the [n] earlier calls never
    resolve whatever happens later. *)
Theorem X17_burst_starts_one_capture n m :
  isSaving m = false ->
  let l := run (repeat HandleEditorChange (S n) ++ [TimerFires]) (start m) in
  saveCalls (trace l) = 1%nat /\
  suspended l = [(n, FirstCapture)] /\
  timeout l = None /\
  forall c events, (c < n)%nat -> isResolved c (trace (run events l)) = false.
Proof.
  intros Hm l. subst l. rewrite run_app.
  destruct (run_burst n (start m)) as (Hmgr & Hsus & Ht & Hc & Hv & Hr).
  set (b := run (repeat HandleEditorChange (S n)) (start m)) in *.
  simpl in Hmgr, Hsus, Ht, Hc, Hv, Hr.
  cbn [run step]. rewrite Ht. unfold timerCallback. rewrite Hmgr, Hm. simpl.
  rewrite Hsus. simpl. split; [|split; [reflexivity|split; [reflexivity|]]].
  - rewrite saveCalls_app, Hv. reflexivity.
  - intros c events Hlt. apply run_abandoned. unfold abandoned. simpl.
    split; [discriminate|]. split; [intros [E|[]]; lia|]. split; [lia|].
    now rewrite isResolved_app, Hr.
Qed.

Lemma X17_witness :
  let l := run (repeat HandleEditorChange 3 ++ [TimerFires])
             (start (constructor (Sample.cfg 100))) in
  saveCalls (trace l) = 1%nat /\
  suspended l = [(2%nat, FirstCapture)] /\
  timeout l = None /\
  forall c events, (c < 2)%nat -> isResolved c (trace (run events l)) = false.
Proof.
  apply (X17_burst_starts_one_capture 2 (constructor (Sample.cfg 100))). reflexivity.
Defined.

(** X18.  Captures never overlap: in every state the loop reaches from a
    manager that is not saving, [isSaving] is set exactly while one run of
    the debounced function waits for [editor.save()], and no second run
    waits. *)
Theorem X18_captures_are_serialized m events :
  isSaving m = false ->
  let l := run events (start m) in
  (List.length (suspended l) <= 1)%nat /\
  (isSaving (manager l) = true <-> suspended l <> []).
Proof.
  intros H l.
  destruct (run_serialized events _ (start_serialized m H)) as [(Hb & r & Hs)|(Hb & Hs)];
    fold l in Hb, Hs; rewrite Hb, Hs; simpl; split; try lia; split;
    try discriminate; try congruence; intros; reflexivity.
Qed.

Lemma X18_witness :
  let l := run [HandleEditorChange; TimerFires; HandleEditorChange; TimerFires]
             (start (constructor (Sample.cfg 100))) in
  (List.length (suspended l) <= 1)%nat /\
  (isSaving (manager l) = true <-> suspended l <> []).
Proof.
  apply (X18_captures_are_serialized (constructor (Sample.cfg 100))
           [HandleEditorChange; TimerFires; HandleEditorChange; TimerFires]).
  reflexivity.
Defined.

(** X19.  When [editor.save()] rejects, in whatever state the loop has
    reached, the capture ends with [isSaving] cleared, the history, the
    cursor and [pendingSave] as they were and no capture in flight; the
    promise of the call that started the run never resolves; and the next
    call and timer expiry start a capture again. *)
Theorem X19_rejected_save_is_not_retried m before caret call stage :
  isSaving m = false ->
  let l := run before (start m) in
  nth_error (suspended l) 0 = Some (call, stage) ->
  let l' := run [SaveSettles 0 None caret] l in
  isSaving (manager l') = false /\
  suspended l' = [] /\
  history (manager l') = history (manager l) /\
  position (manager l') = position (manager l) /\
  pendingSave (manager l') = pendingSave (manager l) /\
  saveCalls (trace l') = saveCalls (trace l) /\
  (forall events, isResolved call (trace (run events l')) = false) /\
  saveCalls (trace (run [HandleEditorChange; TimerFires] l')) = S (saveCalls (trace l)).
Proof.
  intros Hm l Hnth l'.
  destruct (run_reachable before (start m) (start_serialized m Hm) (start_coherent m))
    as [Hser Hcoh]. fold l in Hser, Hcoh.
  pose proof (rejected_abandoned call stage caret l Hser Hcoh Hnth) as Hab.
  assert (El : l' = resume 0 call stage None caret l).
  { subst l'. cbn [run step]. now rewrite Hnth. }
  destruct Hser as [(Hb & r & Hs)|(Hb & Hs)]; [|rewrite Hs in Hnth; discriminate].
  assert (Er : resume 0 call stage None caret l =
               {| manager := withIsSaving false (manager l); timeout := timeout l;
                  suspended := []; calls := calls l; trace := trace l |}).
  { unfold resume. simpl. rewrite Hs. unfold removeAt. simpl.
    now rewrite List.app_nil_r. }
  rewrite Er in *. clear Er. rewrite El. clear El. simpl.
  repeat split.
  - intros events. apply run_abandoned. exact Hab.
  - unfold timerCallback. simpl. rewrite saveCalls_app, saveCalls_app. simpl.
    unfold saveCalls at 2 3. simpl. lia.
Qed.

Lemma X19_witness :
  let l := run [HandleEditorChange; TimerFires] (start (constructor (Sample.cfg 100))) in
  let l' := run [SaveSettles 0 None Sample.caret] l in
  isSaving (manager l') = false /\
  suspended l' = [] /\
  history (manager l') = history (manager l) /\
  position (manager l') = position (manager l) /\
  pendingSave (manager l') = pendingSave (manager l) /\
  saveCalls (trace l') = saveCalls (trace l) /\
  (forall events, isResolved 0 (trace (run events l')) = false) /\
  saveCalls (trace (run [HandleEditorChange; TimerFires] l')) = S (saveCalls (trace l)).
Proof.
  apply (X19_rejected_save_is_not_retried (constructor (Sample.cfg 100))
           [HandleEditorChange; TimerFires] Sample.caret 0%nat FirstCapture);
    reflexivity.
Defined.

(** X20.  A timer that expires while the first capture of a run is waiting
    starts nothing and its call resolves at once; when that capture
    completes, exactly one more is started and [pendingSave] is cleared;
    when this one completes the run ends and its call resolves, with one
    more [editor.save()] call made in all. *)
Theorem X20_pending_capture_follows_first call later output caret output' caret' l :
  suspended l = [(call, FirstCapture)] ->
  timeout l = Some later ->
  isSaving (manager l) = true ->
  let l1 := run [TimerFires] l in
  let l2 := run [SaveSettles 0 (Some output) caret] l1 in
  let l3 := run [SaveSettles 0 (Some output') caret'] l2 in
  (saveCalls (trace l1) = saveCalls (trace l) /\ isResolved later (trace l1) = true /\
   pendingSave (manager l1) = true) /\
  (suspended l2 = [(call, ChainedCapture)] /\ pendingSave (manager l2) = false /\
   saveCalls (trace l2) = S (saveCalls (trace l))) /\
  (suspended l3 = [] /\ isSaving (manager l3) = false /\
   isResolved call (trace l3) = true /\
   saveCalls (trace l3) = S (saveCalls (trace l))).
Proof.
  intros Hs Ht Hb l1 l2 l3.
  destruct (timer_during_capture later l Ht Hb) as (x1 & E1 & Hp1 & Hs1 & Htr1).
  assert (El1 : l1 = x1) by (subst l1; cbn [run]; now rewrite E1).
  rewrite Hs in Hs1.
  destruct (first_capture_chains call output caret x1 Hs1 Hp1)
    as (x2 & E2 & Hs2 & Hp2 & Hb2 & Hv2).
  assert (El2 : l2 = x2) by (subst l2; rewrite El1; cbn [run]; now rewrite E2).
  assert (Hv1 : saveCalls (trace x1) = saveCalls (trace l)).
  { rewrite Htr1, saveCalls_app. unfold saveCalls at 2. simpl. lia. }
  split; [|split].
  - rewrite El1. split; [exact Hv1|]. split; [|exact Hp1].
    rewrite Htr1, isResolved_resolved, Nat.eqb_refl. apply orb_true_r.
  - rewrite El2. split; [exact Hs2|]. split; [exact Hp2|]. now rewrite Hv2, Hv1.
  - subst l3. rewrite El2. cbn [run step]. rewrite Hs2. cbn [nth_error].
    pose proof (captureEnd_isSaving (Some output') caret' (manager x2)) as Hend.
    assert (Hcompl : completion (captureEnd (Some output') caret' (manager x2)) = Returned).
    { unfold captureEnd. destruct (hasChanged (manager x2) output'); reflexivity. }
    assert (Hq : saveCalls (map HostCall (effects (captureEnd (Some output') caret' (manager x2))))
                 = 0%nat).
    { unfold captureEnd. destruct (hasChanged (manager x2) output'); reflexivity. }
    unfold resume. rewrite Hcompl, Hs2. unfold removeAt. cbn [firstn skipn app].
    cbn [suspended manager trace].
    split; [reflexivity|]. split; [exact Hend|]. split.
    + rewrite isResolved_resolved, Nat.eqb_refl. apply orb_true_r.
    + rewrite !saveCalls_app, Hv2, Hv1, Hq. unfold saveCalls at 2. simpl. lia.
Qed.

Lemma X20_witness :
  let l := run [HandleEditorChange; TimerFires; HandleEditorChange]
             (start (after (initialize (DataArray Sample.first)
                              (constructor (Sample.cfg 100))))) in
  let l3 := run [SaveSettles 0 (Some Sample.third) Sample.caret]
              (run [SaveSettles 0 (Some Sample.second) Sample.caret] (run [TimerFires] l)) in
  suspended l3 = [] /\ isSaving (manager l3) = false /\
  isResolved 0 (trace l3) = true /\
  saveCalls (trace l3) = S (saveCalls (trace l)).
Proof.
  intros l.
  apply (proj2 (proj2 (X20_pending_capture_follows_first 0%nat 1%nat
           Sample.second Sample.caret Sample.third Sample.caret l
           eq_refl eq_refl eq_refl))).
Defined.
